(** * Thematic Coder: tabular parser, row codec, taxonomy store and
      annotation reconciler of [src/index.tsx], embedded in Rocq.

    Strings of the program are JavaScript strings.  A character of the
    model is one code unit in the range 0..255 (Rocq's [ascii], read as
    Latin-1), on which the primitives below agree with ECMAScript:
    [trim] strips the code units 9-13, 32 and 160, [toLowerCase] maps
    A-Z and the Latin-1 capitals to their small letters.

    Mutable React state is modelled by explicit state passing: every
    handler is a function from the state before the event to the state
    after all its updates have been applied. *)

From Stdlib Require Import Ascii QArith.Qcanon.
From stdpp Require Import gmap strings list fin_maps sorting.

Set Warnings "-clear-no-such-hyp,-register-all".

Local Open Scope string_scope.
Local Open Scope list_scope.

(** ** JavaScript string primitives used by the program *)
Module JS.

Definition LF : ascii := Ascii.ascii_of_nat 10.
Definition CR : ascii := Ascii.ascii_of_nat 13.
Definition COMMA : ascii := ","%char.
Definition QUOTE : ascii := Ascii.ascii_of_nat 34.

(** WhiteSpace and LineTerminator code units below 256. *)
Definition isWhiteSpace (c : ascii) : bool :=
  let n := Ascii.nat_of_ascii c in
  (((9 <=? n) && (n <=? 13)) || (n =? 32) || (n =? 160))%nat.

Fixpoint trimStart (s : string) : string :=
  match s with
  | EmptyString => EmptyString
  | String c rest => if isWhiteSpace c then trimStart rest else s
  end.

Fixpoint trimEnd (s : string) : string :=
  match s with
  | EmptyString => EmptyString
  | String c rest =>
      match trimEnd rest with
      | EmptyString => if isWhiteSpace c then EmptyString else String c EmptyString
      | t => String c t
      end
  end.

(** [s.trim()] *)
Definition trim (s : string) : string := trimEnd (trimStart s).

(** Truthiness of a string value: only the empty string is falsy. *)
Definition truthy (s : string) : bool := negb (String.eqb s "").

(** [a || EMPTY] on an array read [a = values[index]], [None] being
    [undefined]. *)
Definition orEmpty (a : option string) : string :=
  match a with
  | Some v => if truthy v then v else ""
  | None => ""
  end.

(** [String(v)] for a property read: [undefined] prints as such. *)
Definition String_ (a : option string) : string :=
  match a with
  | Some v => v
  | None => "undefined"
  end.

Definition lowerChar (c : ascii) : ascii :=
  let n := Ascii.nat_of_ascii c in
  if (((65 <=? n) && (n <=? 90))
      || ((192 <=? n) && (n <=? 214))
      || ((216 <=? n) && (n <=? 222)))%nat
  then Ascii.ascii_of_nat (n + 32) else c.

Fixpoint toLowerCase (s : string) : string :=
  match s with
  | EmptyString => EmptyString
  | String c rest => String (lowerChar c) (toLowerCase rest)
  end.

(** [s.includes(c)] for a one-character needle. *)
Fixpoint includesChar (c : ascii) (s : string) : bool :=
  match s with
  | EmptyString => false
  | String d rest => Ascii.eqb d c || includesChar c rest
  end.

(** [s.split(c)] for a one-character separator: never empty. *)
Fixpoint splitChar (c : ascii) (s : string) : list string :=
  match s with
  | EmptyString => [EmptyString]
  | String d rest =>
      if Ascii.eqb d c then EmptyString :: splitChar c rest
      else match splitChar c rest with
           | l :: ls => String d l :: ls
           | [] => [String d EmptyString]
           end
  end.

(** [s.split(/\r\n?|\n/)]: a carriage return, together with a line
    feed that directly follows it, or a lone line feed, ends a line. *)
Fixpoint splitLines (s : string) : list string :=
  match s with
  | EmptyString => [EmptyString]
  | String c rest =>
      if Ascii.eqb c CR then
        match rest with
        | String d rest' =>
            if Ascii.eqb d LF then EmptyString :: splitLines rest'
            else EmptyString :: splitLines rest
        | EmptyString => EmptyString :: splitLines rest
        end
      else if Ascii.eqb c LF then EmptyString :: splitLines rest
      else match splitLines rest with
           | l :: ls => String c l :: ls
           | [] => [String c EmptyString]
           end
  end.

(** [parts.join(sep)] *)
Fixpoint join (sep : string) (parts : list string) : string :=
  match parts with
  | [] => EmptyString
  | [p] => p
  | p :: ps => p +:+ sep +:+ join sep ps
  end.

(** [s.replace(/QUOTE/g, QUOTE QUOTE)]: every double quote is doubled. *)
Fixpoint doubleQuotes (s : string) : string :=
  match s with
  | EmptyString => EmptyString
  | String c rest =>
      if Ascii.eqb c QUOTE then String QUOTE (String QUOTE (doubleQuotes rest))
      else String c (doubleQuotes rest)
  end.

(** The test of [escapeCsvField]: a double quote, a comma or a line
    feed occurs in [s]. *)
Fixpoint needsQuoting (s : string) : bool :=
  match s with
  | EmptyString => false
  | String c rest =>
      Ascii.eqb c QUOTE || Ascii.eqb c COMMA || Ascii.eqb c LF || needsQuoting rest
  end.

(** [s.startsWith(prefix)] *)
Fixpoint startsWith (prefix s : string) : bool :=
  match prefix, s with
  | EmptyString, _ => true
  | String p prefix', String c rest => Ascii.eqb c p && startsWith prefix' rest
  | String _ _, EmptyString => false
  end.

(** [s.includes(needle)] *)
Fixpoint includes (needle s : string) : bool :=
  startsWith needle s
  || match s with
     | EmptyString => false
     | String _ rest => includes needle rest
     end.

(** *** Property keys of ordinary objects *)

Definition digit (c : ascii) : option N :=
  let n := Ascii.N_of_ascii c in
  if ((48 <=? n) && (n <=? 57))%N then Some (n - 48)%N else None.

(** The number written by a string of decimal digits, read after the
    digits that gave [acc]. *)
Fixpoint numeral (s : string) (acc : N) : option N :=
  match s with
  | EmptyString => Some acc
  | String c rest =>
      match digit c with
      | Some d => numeral rest (10 * acc + d)%N
      | None => None
      end
  end.

(** A key that is an array index, with its value: the decimal numeral,
    without a leading zero, of an integer from 0 to 2^32 - 2. *)
Definition arrayIndex (key : string) : option N :=
  match key with
  | EmptyString => None
  | String c rest =>
      if Ascii.eqb c "0"%char && negb (String.eqb rest "") then None
      else
        match numeral key 0 with
        | Some n => if (n <=? 4294967294)%N then Some n else None
        | None => None
        end
  end.

(** The place of a new own key [key] among the keys an object has: it
    goes before [other] when it is an array index and [other] is a
    larger one or none at all.  (An object lists its array indices
    first, by ascending value, then its other keys in the order in
    which they were created.) *)
Definition ranksBefore (key other : string) : bool :=
  match arrayIndex key, arrayIndex other with
  | Some i, Some j => (i <? j)%N
  | Some _, None => true
  | None, _ => false
  end.

(** The names every object inherits from [Object.prototype].  On an
    object without an own property of that name, a read gives a
    function (the prototype itself for [__proto__]): a truthy value
    that is no string and no array. *)
Definition inheritedNames : list string :=
  ["constructor"; "hasOwnProperty"; "isPrototypeOf"; "propertyIsEnumerable";
   "toLocaleString"; "toString"; "valueOf"; "__proto__";
   "__defineGetter__"; "__defineSetter__"; "__lookupGetter__"; "__lookupSetter__"].

Definition inherited (key : string) : bool :=
  existsb (String.eqb key) inheritedNames.

End JS.

(** ** Data model *)

(** A row object [{ [key: string]: string }]: its own properties with
    their values, in the order in which the object lists them
    ([Object.keys]). *)
Definition Row := list (string * string).

(** [row[key]] where the row has the key as its own; [None] when it
    has not. *)
Fixpoint row_get (row : Row) (key : string) : option string :=
  match row with
  | [] => None
  | (k, v) :: rest => if String.eqb k key then Some v else row_get rest key
  end.

Definition row_keys (row : Row) : list string := row.*1.

(** The value of an own property is replaced where it stands. *)
Fixpoint row_update (row : Row) (key val : string) : Row :=
  match row with
  | [] => []
  | (k, v) :: rest =>
      if String.eqb k key then (k, val) :: rest
      else (k, v) :: row_update rest key val
  end.

(** A new own property takes its place in the list of keys. *)
Fixpoint row_insert (row : Row) (key val : string) : Row :=
  match row with
  | [] => [(key, val)]
  | (k, v) :: rest =>
      if JS.ranksBefore key k then (key, val) :: (k, v) :: rest
      else (k, v) :: row_insert rest key val
  end.

(** [row[key] = val] with a string [val], on an object made by [{}].
    Under [__proto__] the assignment runs the setter inherited from
    [Object.prototype], which ignores a string: the row is left as it
    is.  Under every other key the row gets the value as its own
    property: an existing key keeps its place, a new key is created. *)
Definition row_set (row : Row) (key val : string) : Row :=
  if String.eqb key "__proto__" then row
  else
    match row_get row key with
    | Some _ => row_update row key val
    | None => row_insert row key val
    end.

(** A value that is either returned or thrown. *)
Inductive Result (A : Type) : Type :=
| Ok (a : A)
| Throw (message : string).
Arguments Ok {A} a.
Arguments Throw {A} message.

(** ** Tabular parser: [parseCsv] of [handleResponseFileUpload] *)

(** The loop of [parseLine] from the character at hand to the end of
    the line; the arguments are the loop's three variables. *)
Fixpoint parseLine_from (line : string) (result : list string)
    (field : string) (inQuotes : bool) : list string :=
  match line with
  | EmptyString => result ++ [field]
  | String char rest =>
      if inQuotes then
        if Ascii.eqb char JS.QUOTE then
          match rest with
          | String next rest' =>
              if Ascii.eqb next JS.QUOTE
              then parseLine_from rest' result (field +:+ String JS.QUOTE "") true
              else parseLine_from rest result field false
          | EmptyString => parseLine_from rest result field false
          end
        else parseLine_from rest result (field +:+ String char "") true
      else
        if Ascii.eqb char JS.COMMA then parseLine_from rest (result ++ [field]) "" false
        else if Ascii.eqb char JS.QUOTE then parseLine_from rest result field true
        else parseLine_from rest result (field +:+ String char "") false
  end.

Definition parseLine (line : string) : list string :=
  parseLine_from line [] "" false.

(** [headers.forEach((header, index) => row[header] = values[index] || EMPTY)]
    from index [index] on. *)
Fixpoint fillRow (headers : list string) (index : nat) (values : list string)
    (row : Row) : Row :=
  match headers with
  | [] => row
  | header :: rest =>
      fillRow rest (S index) values (row_set row header (JS.orEmpty (values !! index)))
  end.

(** The callback of [lines.slice(1).map]: [None] is [null]. *)
Definition lineToRow (headers : list string) (line : string) : option Row :=
  if negb (JS.truthy (JS.trim line)) then None
  else Some (fillRow headers 0 (parseLine line) []).

(** [.filter(row => row !== null)] *)
Definition dropNull {A} (l : list (option A)) : list A := omap id l.

Definition csvLines (csvText : string) : list string :=
  JS.splitLines (JS.trim csvText).

Definition parseCsv (csvText : string) : Result (list string * list Row) :=
  let lines := csvLines csvText in
  if (length lines <? 2)%nat then
    Throw "CSV must have a header row and at least one data row."
  else
    let headers := parseLine (hd "" lines) in
    let data := dropNull (map (lineToRow headers) (tl lines)) in
    Ok (headers, data).

(** ** Row codec: [escapeCsvField] and the text built by
      [handleDownloadCSV] *)

Definition escapeCsvField (field : string) : string :=
  if JS.needsQuoting field
  then String JS.QUOTE (JS.doubleQuotes field +:+ String JS.QUOTE "")
  else field.

(** [csvContent] of [handleDownloadCSV] for the columns [headers] of the
    rows: the header line is joined as it is, every field of a row goes
    through [escapeCsvField], lines are joined by a line feed.  (The
    four analysis columns the handler appends to every line are further
    fields of the same kind; they are left out here.) *)
Definition serialize (headers : list string) (rows : list Row) : string :=
  JS.join (String JS.LF "")
    (JS.join "," headers
     :: map (fun row =>
               JS.join "," (map (fun h => escapeCsvField (JS.String_ (row_get row h))) headers))
            rows).

(** ** Taxonomy store *)

Record Theme := mkTheme { name : string; description : string }.

Record ChatMessage := mkChat { role_is_user : bool; text : string }.

(** A JSON number carried through the pipeline; no modelled path
    computes with it. *)
Definition number := Qc.

(** One element of [parsedResponse.results]. *)
Module Api.
Record AnalysisResult := mk {
  originalResponse : string;
  themeName : string;
  sentiment : string;
  confidenceScore : number;
  reasoning : string;
  suggestedTheme : option Theme
}.
End Api.

Record CodingResult := mkCoding {
  themeName : string;
  sentiment : string;
  confidenceScore : number;
  reasoning : string;
  responseColumn : string;
  suggestedTheme : option Theme;
  rawData : option Row   (* [None]: [undefined] *)
}.

Record SuggestedThemeWithStatus := mkStatus {
  coding : CodingResult;   (* the fields spread from the result *)
  isApproved : bool;
  editedName : string;
  editedDescription : string
}.

Inductive Mode := replace | append.

Global Instance Mode_eq_dec : EqDecision Mode.
Proof. solve_decision. Defined.

(** State owned by [App]. *)
Record AppState := mkApp {
  codebooks : gmap string (list Theme);
  activeCodebook : string;
  results : list CodingResult;
  reportContent : string;
  chatHistory : list ChatMessage
}.

(** State owned by [AnalysisPage]. *)
Module Page.
Record State := mk {
  isLoading : bool;
  error : option string;
  uploadedData : list Row;
  dataHeaders : list string;
  responseColumn : string;
  isConfirmModalOpen : bool;
  isSuggestionModalOpen : bool;
  suggestedThemes : list CodingResult;
  pendingResults : list CodingResult;
  analysisMode : option Mode
}.
End Page.

(** [codebooks[activeCodebook] || []] *)
Definition activeThemes (app : AppState) : list Theme :=
  default [] (codebooks app !! activeCodebook app).

Definition sameName (a b : string) : bool :=
  bool_decide (JS.toLowerCase a = JS.toLowerCase b).

(** [themes.some(theme => theme.name.toLowerCase() === n.toLowerCase())] *)
Definition someNamed (themes : list Theme) (n : string) : bool :=
  existsb (fun theme => sameName (name theme) n) themes.

(** [handleSetThemes] with a function argument. *)
Definition handleSetThemes (f : list Theme -> list Theme) (app : AppState) : AppState :=
  if negb (JS.truthy (activeCodebook app)) then app
  else
    let currentThemes := default [] (codebooks app !! activeCodebook app) in
    mkApp (<[activeCodebook app := f currentThemes]> (codebooks app))
          (activeCodebook app) (results app) (reportContent app) (chatHistory app).

(** [handleAddTheme] of the codebook page, on the two input fields; the
    second component is the validation message when the add is refused. *)
Definition handleAddTheme (newThemeName newThemeDescription : string)
    (app : AppState) : AppState * option string :=
  if JS.truthy (JS.trim newThemeName) && JS.truthy (JS.trim newThemeDescription) then
    if someNamed (activeThemes app) (JS.trim newThemeName) then
      (app, Some ("Theme " +:+ String JS.QUOTE
                    (newThemeName +:+ String JS.QUOTE " already exists.")))
    else
      (handleSetThemes
         (fun prev => prev ++ [mkTheme (JS.trim newThemeName) (JS.trim newThemeDescription)])
         app, None)
  else (app, None).

(** The themes read from the text of an imported codebook file. *)
Definition parseThemeLine (line : string) : Theme :=
  match JS.splitChar JS.COMMA line with
  | first :: parts => mkTheme (JS.trim first) (JS.trim (JS.join "," parts))
  | [] => mkTheme "" ""
  end.

Definition importedThemes (text : string) : list Theme :=
  filter (fun theme => JS.truthy (name theme) && JS.truthy (description theme))
    (map parseThemeLine
       (filter (fun line => JS.includesChar JS.COMMA line)
          (map JS.trim (JS.splitChar JS.LF text)))).

(** The updater passed to [setThemes] by [handleFileUpload]. *)
Definition mergeImported (newThemes prevThemes : list Theme) : list Theme :=
  let uniqueNewThemes :=
    filter (fun newTheme => negb (someNamed prevThemes (name newTheme))) newThemes in
  prevThemes ++ uniqueNewThemes.

Definition handleFileUpload (text : string) (app : AppState) : AppState :=
  handleSetThemes (mergeImported (importedThemes text)) app.

(** [handleAddNewThemes]: the approved suggestions are folded into the
    active codebook. *)
Definition handleAddNewThemes (newThemes : list Theme) (app : AppState) : AppState :=
  if negb (JS.truthy (activeCodebook app)) then app
  else
    let existingThemeNames : gset string :=
      list_to_set (map (fun t => JS.toLowerCase (name t)) (activeThemes app)) in
    let uniqueNewThemes :=
      filter (fun newTheme =>
                negb (bool_decide (JS.toLowerCase (name newTheme) ∈ existingThemeNames)))
             newThemes in
    if (0 <? length uniqueNewThemes)%nat
    then handleSetThemes (fun prevThemes => prevThemes ++ uniqueNewThemes) app
    else app.

(** [Object.keys(codebooks).sort()]: the keys in code-unit order. *)
Definition sortedNames (cb : gmap string (list Theme)) : list string :=
  merge_sort String.le (map_to_list cb).*1.

Definition handleDeleteCodebook (codebookNameToDelete : string) (app : AppState) : AppState :=
  let newCodebooks := delete codebookNameToDelete (codebooks app) in
  let newActive :=
    if bool_decide (activeCodebook app = codebookNameToDelete) then
      match sortedNames newCodebooks with
      | first :: _ => first
      | [] => ""
      end
    else activeCodebook app in
  mkApp newCodebooks newActive [] "" [].

(** ** Annotation reconciler: [runAnalysis] *)

(** What the [try] block obtains before its first state update: an
    exception, or the records of a reply that has the shape the
    response schema asks for.  (The run on a reply of any shape is
    [Any.runAnalysis] below.) *)
Inductive ApiOutcome :=
| ApiThrows (message : string)
| ApiResults (records : list Api.AnalysisResult).

(** [uploadedData.find(d => d[responseColumn] === r.originalResponse)
     || uploadedData[index]]; a row object is always truthy. *)
Definition originalDataRow (uploadedData : list Row) (responseColumn : string)
    (analysisResult : Api.AnalysisResult) (index : nat) : option Row :=
  match List.find
          (fun d => bool_decide (row_get d responseColumn
                                 = Some (Api.originalResponse analysisResult)))
          uploadedData with
  | Some d => Some d
  | None => uploadedData !! index
  end.

(** The callback of [parsedResponse.results.map]. *)
Definition toCodingResult (uploadedData : list Row) (responseColumn : string)
    (index : nat) (analysisResult : Api.AnalysisResult) : CodingResult :=
  mkCoding (Api.themeName analysisResult)
           (Api.sentiment analysisResult)
           (Api.confidenceScore analysisResult)
           (Api.reasoning analysisResult)
           responseColumn
           (Api.suggestedTheme analysisResult)
           (originalDataRow uploadedData responseColumn analysisResult index).

Definition reconcile (uploadedData : list Row) (responseColumn : string)
    (records : list Api.AnalysisResult) : list CodingResult :=
  imap (toCodingResult uploadedData responseColumn) records.

(** [r.suggestedTheme && r.suggestedTheme.name && r.suggestedTheme.description] *)
Definition isSuggestion (r : CodingResult) : bool :=
  match suggestedTheme r with
  | Some t => JS.truthy (name t) && JS.truthy (description t)
  | None => false
  end.

(** [!r.suggestedTheme || !r.suggestedTheme.name] *)
Definition isRegular (r : CodingResult) : bool :=
  match suggestedTheme r with
  | Some t => negb (JS.truthy (name t))
  | None => true
  end.

(** [setResults] under the append or replace choice. *)
Definition mergeResults (mode : option Mode) (prev new : list CodingResult)
    : list CodingResult :=
  if bool_decide (mode = Some append) then prev ++ new else new.

Definition runAnalysis (mode : Mode) (outcome : ApiOutcome)
    (st : AppState * Page.State) : AppState * Page.State :=
  let (app, pg) := st in
  if negb (JS.truthy (Page.responseColumn pg)) then
    (app,
     Page.mk (Page.isLoading pg)
       (Some "Please select the column containing the response text.")
       (Page.uploadedData pg) (Page.dataHeaders pg) (Page.responseColumn pg)
       (Page.isConfirmModalOpen pg) (Page.isSuggestionModalOpen pg)
       (Page.suggestedThemes pg) (Page.pendingResults pg) (Page.analysisMode pg))
  else
    match outcome with
    | ApiThrows errorMessage =>
        (app,
         Page.mk false
           (Some ("An error occurred while communicating with the API. Please try again."
                  +:+ String JS.LF ("Details: " +:+ errorMessage)))
           (Page.uploadedData pg) (Page.dataHeaders pg) (Page.responseColumn pg)
           (Page.isConfirmModalOpen pg) (Page.isSuggestionModalOpen pg)
           (Page.suggestedThemes pg) (Page.pendingResults pg) (Some mode))
    | ApiResults records =>
        let newResults :=
          reconcile (Page.uploadedData pg) (Page.responseColumn pg) records in
        let suggestions := filter (fun r => isSuggestion r) newResults in
        let regularResults := filter (fun r => isRegular r) newResults in
        if (0 <? length suggestions)%nat then
          (app,
           Page.mk false None [] [] ""
             (Page.isConfirmModalOpen pg) true
             suggestions regularResults (Some mode))
        else
          (mkApp (codebooks app) (activeCodebook app)
                 (mergeResults (Some mode) (results app) regularResults)
                 (reportContent app) (chatHistory app),
           Page.mk false None [] [] ""
             (Page.isConfirmModalOpen pg) (Page.isSuggestionModalOpen pg)
             (Page.suggestedThemes pg) [] (Some mode))
    end.

(** ** The run on the reply as the service gives it

    The records of a reply are of type [any] in [runAnalysis]: nothing
    checks that they have the fields of [Api.AnalysisResult].  The
    definitions below follow [runAnalysis] on whatever [JSON.parse]
    returns; [runAnalysis] above is the same function on the replies
    that have the expected shape. *)

(** A value returned by [JSON.parse].  The members of an object are
    its own properties, each key once; a number is the rational that
    the parsed number is. *)
Inductive Json :=
| JNull
| JBool (b : bool)
| JNumber (n : number)
| JString (s : string)
| JArray (items : list Json)
| JObject (members : list (string * Json)).

(** What the awaited call and the parsing of its text give. *)
Inductive ServiceReply :=
| Rejected (message : string)      (* the awaited [generateContent] throws *)
| NotJson (message : string)       (* reading and parsing [response.text] throws *)
| Parsed (parsedResponse : Json).  (* [JSON.parse(response.text)] returns *)

(** The property reads of the [try] block that raise a [TypeError];
    the wording of its message is the engine's. *)
Inductive TypeErrorAt :=
| ResultsOfNull      (* [parsedResponse.results] on [null] *)
| MapOfUndefined     (* [.map] on [undefined] *)
| MapOfNull          (* [.map] on [null] *)
| MapNotFunction     (* [results.map] is no function *)
| RecordIsNull.      (* [analysisResult.originalResponse] on [null] *)

Fixpoint lookupMember (members : list (string * Json)) (key : string) : option Json :=
  match members with
  | [] => None
  | (k, v) :: rest => if String.eqb k key then Some v else lookupMember rest key
  end.

(** [v.key] for a value [v] other than [null] and for the names the
    program reads ([results], the fields of a record, [name],
    [description]), none of which an object, an array, a string, a
    number or a boolean inherits; [None] is [undefined]. *)
Definition getMember (v : Json) (key : string) : option Json :=
  match v with
  | JObject members => lookupMember members key
  | _ => None
  end.

(** Truthiness of a value that was read: [undefined], [null], [false],
    zero and the empty string are falsy. *)
Definition truthyValue (v : option Json) : bool :=
  match v with
  | None => false
  | Some JNull => false
  | Some (JBool b) => b
  | Some (JNumber n) => negb (bool_decide (n = 0%Qc))
  | Some (JString s) => JS.truthy s
  | Some (JArray _) => true
  | Some (JObject _) => true
  end.

(** [d[key]] on a row: its own property, a member it inherits, or
    [undefined]. *)
Inductive Cell :=
| Own (s : string)
| Inherited
| Undefined.

Definition readRow (d : Row) (key : string) : Cell :=
  match row_get d key with
  | Some s => Own s
  | None => if JS.inherited key then Inherited else Undefined
  end.

(** [cell === v]: a string equals the same string, [undefined] equals
    [undefined]; an inherited member is no value of a reply. *)
Definition strictEq (cell : Cell) (v : option Json) : bool :=
  match cell, v with
  | Own s, Some (JString t) => String.eqb s t
  | Undefined, None => true
  | _, _ => false
  end.

Module Any.

(** A coding result whose copied fields are whatever the record holds,
    [None] for [undefined]. *)
Record CodingResult := mkCoding {
  themeName : option Json;
  sentiment : option Json;
  confidenceScore : option Json;
  reasoning : option Json;
  responseColumn : string;
  suggestedTheme : option Json;
  rawData : option Row
}.

(** The state [runAnalysis] reads and writes: the result set of [App]
    and the state of [AnalysisPage]. *)
Module Run.
Record State := mk {
  results : list CodingResult;
  isLoading : bool;
  error : option string;
  uploadedData : list Row;
  dataHeaders : list string;
  responseColumn : string;
  isSuggestionModalOpen : bool;
  suggestedThemes : list CodingResult;
  pendingResults : list CodingResult;
  analysisMode : option Mode
}.
End Run.

(** [parsedResponse.results], when [.map] can be called on it: the
    array that is mapped. *)
Definition resultsArray (engine : TypeErrorAt -> string) (parsedResponse : Json)
    : Result (list Json) :=
  match parsedResponse with
  | JNull => Throw (engine ResultsOfNull)
  | _ =>
      match getMember parsedResponse "results" with
      | None => Throw (engine MapOfUndefined)
      | Some JNull => Throw (engine MapOfNull)
      | Some (JArray items) => Ok items
      | Some _ => Throw (engine MapNotFunction)
      end
  end.

(** The [try] block down to [parsedResponse.results]; [ai = false]
    stands for [ai === null]. *)
Definition callService (engine : TypeErrorAt -> string) (ai : bool) (reply : ServiceReply)
    : Result (list Json) :=
  if negb ai then Throw "API key not set."
  else
    match reply with
    | Rejected message => Throw message
    | NotJson message => Throw message
    | Parsed parsedResponse => resultsArray engine parsedResponse
    end.

Definition originalDataRow (uploadedData : list Row) (responseColumn : string)
    (analysisResult : Json) (index : nat) : option Row :=
  match List.find
          (fun d => strictEq (readRow d responseColumn)
                             (getMember analysisResult "originalResponse"))
          uploadedData with
  | Some d => Some d
  | None => uploadedData !! index
  end.

(** The callback of [parsedResponse.results.map]: its first read
    throws on [null]. *)
Definition toCodingResult (engine : TypeErrorAt -> string) (uploadedData : list Row)
    (responseColumn : string) (index : nat) (analysisResult : Json)
    : Result CodingResult :=
  match analysisResult with
  | JNull => Throw (engine RecordIsNull)
  | _ =>
      Ok (mkCoding (getMember analysisResult "themeName")
                   (getMember analysisResult "sentiment")
                   (getMember analysisResult "confidenceScore")
                   (getMember analysisResult "reasoning")
                   responseColumn
                   (getMember analysisResult "suggestedTheme")
                   (originalDataRow uploadedData responseColumn analysisResult index))
  end.

(** [parsedResponse.results.map(...)] from the record at [index] on:
    the new results, or the first exception. *)
Fixpoint reconcileFrom (engine : TypeErrorAt -> string) (uploadedData : list Row)
    (responseColumn : string) (index : nat) (records : list Json)
    : Result (list CodingResult) :=
  match records with
  | [] => Ok []
  | analysisResult :: rest =>
      match toCodingResult engine uploadedData responseColumn index analysisResult with
      | Throw e => Throw e
      | Ok r =>
          match reconcileFrom engine uploadedData responseColumn (S index) rest with
          | Throw e => Throw e
          | Ok rs => Ok (r :: rs)
          end
      end
  end.

(** The [try] block down to [newResults]. *)
Definition tryBlock (engine : TypeErrorAt -> string) (ai : bool) (reply : ServiceReply)
    (uploadedData : list Row) (responseColumn : string) : Result (list CodingResult) :=
  match callService engine ai reply with
  | Throw e => Throw e
  | Ok records => reconcileFrom engine uploadedData responseColumn 0 records
  end.

(** [r.suggestedTheme && r.suggestedTheme.name && r.suggestedTheme.description] *)
Definition isSuggestion (r : CodingResult) : bool :=
  match suggestedTheme r with
  | Some t =>
      truthyValue (Some t) && truthyValue (getMember t "name")
      && truthyValue (getMember t "description")
  | None => false
  end.

(** [!r.suggestedTheme || !r.suggestedTheme.name] *)
Definition isRegular (r : CodingResult) : bool :=
  match suggestedTheme r with
  | Some t => negb (truthyValue (Some t)) || negb (truthyValue (getMember t "name"))
  | None => true
  end.

Definition runAnalysis (engine : TypeErrorAt -> string) (mode : Mode) (ai : bool)
    (reply : ServiceReply) (st : Run.State) : Run.State :=
  if negb (JS.truthy (Run.responseColumn st)) then
    Run.mk (Run.results st) (Run.isLoading st)
      (Some "Please select the column containing the response text.")
      (Run.uploadedData st) (Run.dataHeaders st) (Run.responseColumn st)
      (Run.isSuggestionModalOpen st) (Run.suggestedThemes st) (Run.pendingResults st)
      (Run.analysisMode st)
  else
    match tryBlock engine ai reply (Run.uploadedData st) (Run.responseColumn st) with
    | Throw errorMessage =>
        Run.mk (Run.results st) false
          (Some ("An error occurred while communicating with the API. Please try again."
                 +:+ String JS.LF ("Details: " +:+ errorMessage)))
          (Run.uploadedData st) (Run.dataHeaders st) (Run.responseColumn st)
          (Run.isSuggestionModalOpen st) (Run.suggestedThemes st) (Run.pendingResults st)
          (Some mode)
    | Ok newResults =>
        let suggestions := filter (fun r => isSuggestion r) newResults in
        let regularResults := filter (fun r => isRegular r) newResults in
        if (0 <? length suggestions)%nat then
          Run.mk (Run.results st) false None [] [] "" true
            suggestions regularResults (Some mode)
        else
          Run.mk (if bool_decide (mode = append)
                  then Run.results st ++ regularResults else regularResults)
            false None [] [] ""
            (Run.isSuggestionModalOpen st) (Run.suggestedThemes st) [] (Some mode)
    end.

End Any.

(** *** The replies that have the expected shape *)

Definition asString (v : option Json) : option string :=
  match v with
  | Some (JString s) => Some s
  | _ => None
  end.

Definition asNumber (v : option Json) : option number :=
  match v with
  | Some (JNumber n) => Some n
  | _ => None
  end.

(** The optional [suggestedTheme] of a record: absent, or an object
    with a name and a description. *)
Definition decodeTheme (v : option Json) : option (option Theme) :=
  match v with
  | None => Some None
  | Some t =>
      match asString (getMember t "name"), asString (getMember t "description") with
      | Some n, Some d => Some (Some (mkTheme n d))
      | _, _ => None
      end
  end.

(** A record with the fields the response schema requires, of the
    types it gives them. *)
Definition decodeRecord (v : Json) : option Api.AnalysisResult :=
  match asString (getMember v "originalResponse"), asString (getMember v "themeName"),
        asString (getMember v "sentiment"), asNumber (getMember v "confidenceScore"),
        asString (getMember v "reasoning"), decodeTheme (getMember v "suggestedTheme") with
  | Some response, Some theme, Some sent, Some score, Some reason, Some suggested =>
      Some (Api.mk response theme sent score reason suggested)
  | _, _, _, _, _, _ => None
  end.

Fixpoint decodeRecords (items : list Json) : option (list Api.AnalysisResult) :=
  match items with
  | [] => Some []
  | v :: rest =>
      match decodeRecord v, decodeRecords rest with
      | Some r, Some rs => Some (r :: rs)
      | _, _ => None
      end
  end.

(** The reply decoded as the expected shape: an object with an array
    of such records under [results]. *)
Definition decode (parsedResponse : Json) : option (list Api.AnalysisResult) :=
  match getMember parsedResponse "results" with
  | Some (JArray items) => decodeRecords items
  | _ => None
  end.

(** The reply that holds given records, and nothing else. *)
Definition encodeTheme (t : Theme) : Json :=
  JObject [("name", JString (name t)); ("description", JString (description t))].

Definition encodeRecord (r : Api.AnalysisResult) : Json :=
  JObject
    ([("originalResponse", JString (Api.originalResponse r));
      ("themeName", JString (Api.themeName r));
      ("sentiment", JString (Api.sentiment r));
      ("confidenceScore", JNumber (Api.confidenceScore r));
      ("reasoning", JString (Api.reasoning r))]
     ++ match Api.suggestedTheme r with
        | Some t => [("suggestedTheme", encodeTheme t)]
        | None => []
        end).

Definition encode (records : list Api.AnalysisResult) : Json :=
  JObject [("results", JArray (map encodeRecord records))].

(** A typed result and a typed state, seen as the run on any reply
    sees them. *)
Definition anyCoding (r : CodingResult) : Any.CodingResult :=
  Any.mkCoding (Some (JString (themeName r))) (Some (JString (sentiment r)))
    (Some (JNumber (confidenceScore r))) (Some (JString (reasoning r)))
    (responseColumn r) (option_map encodeTheme (suggestedTheme r)) (rawData r).

Definition anyState (st : AppState * Page.State) : Any.Run.State :=
  Any.Run.mk (map anyCoding (results st.1))
    (Page.isLoading st.2) (Page.error st.2)
    (Page.uploadedData st.2) (Page.dataHeaders st.2) (Page.responseColumn st.2)
    (Page.isSuggestionModalOpen st.2)
    (map anyCoding (Page.suggestedThemes st.2))
    (map anyCoding (Page.pendingResults st.2))
    (Page.analysisMode st.2).

(** ** Suggestion approval workflow: [ThemeSuggestionModal] *)

(** The effect that seeds the modal when it opens.  Every element of
    [suggestions] passed [isSuggestion], so its [suggestedTheme] is
    there; the other branch is never taken. *)
Definition seedSuggestions (suggestions : list CodingResult)
    : list SuggestedThemeWithStatus :=
  map (fun s =>
         match suggestedTheme s with
         | Some t => mkStatus s true (name t) (description t)
         | None => mkStatus s true "" ""
         end)
      suggestions.

Definition handleToggleApproval (index : nat)
    (prev : list SuggestedThemeWithStatus) : list SuggestedThemeWithStatus :=
  imap (fun i s =>
          if bool_decide (i = index)
          then mkStatus (coding s) (negb (isApproved s)) (editedName s) (editedDescription s)
          else s)
       prev.

Inductive EditedField := EditedName | EditedDescription.

Definition handleFieldChange (index : nat) (field : EditedField) (value : string)
    (prev : list SuggestedThemeWithStatus) : list SuggestedThemeWithStatus :=
  imap (fun i s =>
          if bool_decide (i = index) then
            match field with
            | EditedName => mkStatus (coding s) (isApproved s) value (editedDescription s)
            | EditedDescription => mkStatus (coding s) (isApproved s) (editedName s) value
            end
          else s)
       prev.

(** [s.isApproved && s.editedName.trim() && s.editedDescription.trim()] *)
Definition accepted (s : SuggestedThemeWithStatus) : bool :=
  isApproved s && JS.truthy (JS.trim (editedName s))
  && JS.truthy (JS.trim (editedDescription s)).

(** [{ ...coreResult, themeName: n }]: the suggestion fields are gone. *)
Definition coreResultNamed (s : SuggestedThemeWithStatus) (n : string) : CodingResult :=
  let r := coding s in
  mkCoding n (sentiment r) (confidenceScore r) (reasoning r)
           (responseColumn r) None (rawData r).

(** One turn of the [forEach] of [handleFinish] on the two arrays. *)
Definition finishStep (acc : list Theme * list CodingResult)
    (s : SuggestedThemeWithStatus) : list Theme * list CodingResult :=
  let (newThemes, finalResults) := acc in
  if accepted s then
    let newTheme := mkTheme (JS.trim (editedName s)) (JS.trim (editedDescription s)) in
    (newThemes ++ [newTheme], finalResults ++ [coreResultNamed s (name newTheme)])
  else
    (newThemes, finalResults ++ [coreResultNamed s "Uncategorized"]).

(** [handleFinish]: the arguments it passes to [onComplete], as
    [(finalResults, newThemes)]. *)
Definition handleFinish (processedSuggestions : list SuggestedThemeWithStatus)
    : list CodingResult * list Theme :=
  let (newThemes, finalResults) := fold_left finishStep processedSuggestions ([], []) in
  (finalResults, newThemes).

Definition handleSuggestionsComplete (processedSuggestions : list CodingResult)
    (newThemes : list Theme) (st : AppState * Page.State) : AppState * Page.State :=
  let (app, pg) := st in
  let app1 := handleAddNewThemes newThemes app in
  let finalResults := Page.pendingResults pg ++ processedSuggestions in
  (mkApp (codebooks app1) (activeCodebook app1)
         (mergeResults (Page.analysisMode pg) (results app1) finalResults)
         (reportContent app1) (chatHistory app1),
   Page.mk (Page.isLoading pg) (Page.error pg)
     (Page.uploadedData pg) (Page.dataHeaders pg) (Page.responseColumn pg)
     (Page.isConfirmModalOpen pg) false [] [] None).

(** The finish button: [handleFinish] calling [onComplete]. *)
Definition finishSuggestions (processedSuggestions : list SuggestedThemeWithStatus)
    (st : AppState * Page.State) : AppState * Page.State :=
  let (finalResults, newThemes) := handleFinish processedSuggestions in
  handleSuggestionsComplete finalResults newThemes st.

(** ** Column role detection and upload: [handleResponseFileUpload] *)

Definition keywords : list string :=
  ["response"; "comment"; "feedback"; "suggestion"; "text"].

(** [keywords.some(keyword => lowerHeader.includes(keyword))] *)
Definition hasKeyword (header : string) : bool :=
  existsb (fun keyword => JS.includes keyword (JS.toLowerCase header)) keywords.

(** The loop that sets [detectedColumn] and breaks at the first hit. *)
Fixpoint detectColumn (headers : list string) : string :=
  match headers with
  | [] => ""
  | header :: rest => if hasKeyword header then header else detectColumn rest
  end.

(** The [onload] callback of [handleResponseFileUpload] on the text of
    the chosen file. *)
Definition handleResponseFileUpload (text : string) (pg : Page.State) : Page.State :=
  match parseCsv text with
  | Ok (headers, data) =>
      Page.mk (Page.isLoading pg) None data headers (detectColumn headers)
        (Page.isConfirmModalOpen pg) (Page.isSuggestionModalOpen pg)
        (Page.suggestedThemes pg) (Page.pendingResults pg) (Page.analysisMode pg)
  | Throw errorMessage =>
      Page.mk (Page.isLoading pg)
        (Some ("Error parsing CSV file. " +:+ errorMessage)) [] [] ""
        (Page.isConfirmModalOpen pg) (Page.isSuggestionModalOpen pg)
        (Page.suggestedThemes pg) (Page.pendingResults pg) (Page.analysisMode pg)
  end.

(** [onClose] of the suggestion modal: [setIsSuggestionModalOpen(false)]. *)
Definition closeSuggestionModal (pg : Page.State) : Page.State :=
  Page.mk (Page.isLoading pg) (Page.error pg)
    (Page.uploadedData pg) (Page.dataHeaders pg) (Page.responseColumn pg)
    (Page.isConfirmModalOpen pg) false
    (Page.suggestedThemes pg) (Page.pendingResults pg) (Page.analysisMode pg).

(** ** Codebook page: creation, removal, export *)

(** [codebooks[key]] is truthy: the object has a codebook of that name
    (an array, which is truthy even when empty) or inherits a member
    of that name. *)
Definition hasMember (cb : gmap string (list Theme)) (key : string) : bool :=
  bool_decide (is_Some (cb !! key)) || JS.inherited key.

(** [handleCreateCodebook] on the text of the name field. *)
Definition handleCreateCodebook (newCodebookName : string) (app : AppState) : AppState :=
  let trimmedName := JS.trim newCodebookName in
  if JS.truthy trimmedName && negb (hasMember (codebooks app) trimmedName)
  then mkApp (<[trimmedName := []]> (codebooks app)) trimmedName
             (results app) (reportContent app) (chatHistory app)
  else app.

(** [handleConfirmDelete]: the only caller of [deleteCodebook]. *)
Definition handleConfirmDelete (app : AppState) : AppState :=
  if JS.truthy (activeCodebook app)
  then handleDeleteCodebook (activeCodebook app) app
  else app.

(** [l.filter((_, i) => i !== index)] *)
Definition removeAt {A} (index : nat) (l : list A) : list A :=
  (filter (fun p : nat * A => p.1 <> index) (imap pair l)).*2.

(** [handleRemoveTheme]: [setThemes] with the filtered array of the
    themes the page was rendered with. *)
Definition handleRemoveTheme (index : nat) (app : AppState) : AppState :=
  handleSetThemes (fun _ => removeAt index (activeThemes app)) app.

(** [csvContent] of [handleExportCSV]; [None] when the handler returns
    at once. *)
Definition handleExportCSV (app : AppState) : option string :=
  if negb (JS.truthy (activeCodebook app)) || (length (activeThemes app) =? 0)%nat
  then None
  else Some (JS.join (String JS.LF "")
               (map (fun theme =>
                       escapeCsvField (name theme) +:+ "," +:+ escapeCsvField (description theme))
                    (activeThemes app))).

(** The initializer of the [activeCodebook] state: [savedActive] is
    what the storage holds under the key of the active codebook,
    [parsedCodebooks] the decoded stored codebooks. *)
Definition initialActiveCodebook (savedActive : option string)
    (parsedCodebooks : gmap string (list Theme)) : string :=
  let fallback :=
    match sortedNames parsedCodebooks with
    | first :: _ => if JS.truthy first then first else ""
    | [] => ""
    end in
  match savedActive with
  | Some a =>
      if JS.truthy a && hasMember parsedCodebooks a then a else fallback
  | None => fallback
  end.

Definition initialApp (savedActive : option string)
    (savedCodebooks : gmap string (list Theme)) : AppState :=
  mkApp savedCodebooks (initialActiveCodebook savedActive savedCodebooks) [] "" [].

(** The events of the taxonomy store and the handler each one runs. *)
Inductive StoreEvent :=
| CreateCodebook (newCodebookName : string)
| ConfirmDelete
| AddTheme (newThemeName newThemeDescription : string)
| RemoveTheme (index : nat)
| ImportFile (text : string)
| AddNewThemes (newThemes : list Theme).

Definition storeStep (app : AppState) (e : StoreEvent) : AppState :=
  match e with
  | CreateCodebook n => handleCreateCodebook n app
  | ConfirmDelete => handleConfirmDelete app
  | AddTheme n d => (handleAddTheme n d app).1
  | RemoveTheme i => handleRemoveTheme i app
  | ImportFile text => handleFileUpload text app
  | AddNewThemes ts => handleAddNewThemes ts app
  end.

(** ** Export of the results: [handleDownloadCSV] *)

Definition analysisHeaders : list string :=
  ["Assigned Theme"; "Sentiment"; "Confidence Score"; "Reasoning"].

(** One line of [csvContent].  [showNumber] is [String] on numbers.
    Reading a column of a result without [rawData] throws. *)
Definition downloadLine (showNumber : number -> string) (resultHeaders : list string)
    (row : CodingResult) : Result string :=
  let analysis :=
    [escapeCsvField (themeName row); escapeCsvField (sentiment row);
     escapeCsvField (showNumber (confidenceScore row)); escapeCsvField (reasoning row)] in
  match rawData row, resultHeaders with
  | None, _ :: _ => Throw "TypeError"
  | None, [] => Ok (JS.join "," analysis)
  | Some raw, _ =>
      Ok (JS.join ","
            (map (fun h => escapeCsvField (JS.String_ (row_get raw h))) resultHeaders
             ++ analysis))
  end.

(** All lines, or the first exception. *)
Fixpoint downloadLines (showNumber : number -> string) (resultHeaders : list string)
    (rows : list CodingResult) : Result (list string) :=
  match rows with
  | [] => Ok []
  | row :: rest =>
      match downloadLine showNumber resultHeaders row with
      | Throw e => Throw e
      | Ok line =>
          match downloadLines showNumber resultHeaders rest with
          | Throw e => Throw e
          | Ok lines => Ok (line :: lines)
          end
      end
  end.

(** [csvContent] of [handleDownloadCSV]; [None] when the handler
    returns at once. *)
Definition handleDownloadCSV (showNumber : number -> string)
    (results : list CodingResult) : option (Result string) :=
  match results with
  | [] => None
  | first :: _ =>
      match rawData first with
      | None => Some (Throw "TypeError")
      | Some raw =>
          let resultHeaders := row_keys raw in
          let headers := resultHeaders ++ analysisHeaders in
          match downloadLines showNumber resultHeaders results with
          | Throw e => Some (Throw e)
          | Ok lines => Some (Ok (JS.join (String JS.LF "") (JS.join "," headers :: lines)))
          end
      end
  end.

(** ** Report page: counts, chat and report *)

(** [m.set(theme, (m.get(theme) || 0) + 1)] on a [Map], whose entries
    keep the order in which their keys first came. *)
Fixpoint bump (m : list (string * nat)) (theme : string) : list (string * nat) :=
  match m with
  | [] => [(theme, 1)]
  | (k, n) :: rest =>
      if String.eqb k theme then (k, n + 1) :: rest else (k, n) :: bump rest theme
  end.

(** [m.get(theme) || 0] *)
Fixpoint getCount (m : list (string * nat)) (theme : string) : nat :=
  match m with
  | [] => 0
  | (k, n) :: rest => if String.eqb k theme then n else getCount rest theme
  end.

Module Chart.
Record Counts := mk {
  positive : list (string * nat);
  negative : list (string * nat);
  neutral : list (string * nat)
}.
End Chart.

(** One turn of the [forEach] of [themeCounts]. *)
Definition countStep (acc : Chart.Counts) (result : CodingResult) : Chart.Counts :=
  let theme := themeName result in
  if String.eqb (sentiment result) "Positive" then
    Chart.mk (bump (Chart.positive acc) theme) (Chart.negative acc) (Chart.neutral acc)
  else if String.eqb (sentiment result) "Negative" then
    Chart.mk (Chart.positive acc) (bump (Chart.negative acc) theme) (Chart.neutral acc)
  else if String.eqb (sentiment result) "Neutral" then
    Chart.mk (Chart.positive acc) (Chart.negative acc) (bump (Chart.neutral acc) theme)
  else acc.

Definition themeCounts (results : list CodingResult) : Chart.Counts :=
  fold_left countStep results (Chart.mk [] [] []).

(** [Math.max(1, ...Array.from(data.values()))] of the bar chart. *)
Definition maxCount (data : list (string * nat)) : nat :=
  fold_left Nat.max data.*2 1.

(** State owned by [ReportPage], as far as the handlers below use it. *)
Module Report.
Record State := mk {
  isReportLoading : bool;
  reportError : option string;
  chatInput : string;
  isChatLoading : bool
}.
End Report.

(** [handleSendChat]; [reply] is what the awaited call gives. *)
Definition handleSendChat (ai : bool) (reply : Result string)
    (st : AppState * Report.State) : AppState * Report.State :=
  let (app, rp) := st in
  if negb (JS.truthy (JS.trim (Report.chatInput rp))) || Report.isChatLoading rp || negb ai
  then st
  else
    let newUserMessage := mkChat true (Report.chatInput rp) in
    let answer :=
      match reply with
      | Ok responseText => mkChat false responseText
      | Throw errorMessageText =>
          mkChat false ("Sorry, an error occurred. Details: " +:+ errorMessageText)
      end in
    (mkApp (codebooks app) (activeCodebook app) (results app) (reportContent app)
           ((chatHistory app ++ [newUserMessage]) ++ [answer]),
     Report.mk (Report.isReportLoading rp) (Report.reportError rp) "" false).

(** The user types [input] into the chat field ([setChatInput]) and
    submits; [reply] is what the call gives if it is made. *)
Definition chatTurn (ai : bool) (st : AppState * Report.State)
    (turn : string * Result string) : AppState * Report.State :=
  let (app, rp) := st in
  handleSendChat ai turn.2
    (app, Report.mk (Report.isReportLoading rp) (Report.reportError rp) turn.1
            (Report.isChatLoading rp)).

(** [handleGenerateReport] *)
Definition handleGenerateReport (ai : bool) (reply : Result string)
    (st : AppState * Report.State) : AppState * Report.State :=
  let (app, rp) := st in
  if negb ai then
    (app,
     Report.mk (Report.isReportLoading rp)
       (Some "Please set your Gemini API key to generate a report.")
       (Report.chatInput rp) (Report.isChatLoading rp))
  else
    match reply with
    | Ok responseText =>
        (mkApp (codebooks app) (activeCodebook app) (results app) responseText
               (chatHistory app),
         Report.mk false None (Report.chatInput rp) (Report.isChatLoading rp))
    | Throw errorMessage =>
        (mkApp (codebooks app) (activeCodebook app) (results app) "" (chatHistory app),
         Report.mk false
           (Some ("An error occurred while generating the report. Details: "
                  +:+ errorMessage))
           (Report.chatInput rp) (Report.isChatLoading rp))
    end.

(** [handleAddToReport] *)
Definition handleAddToReport (text : string) (app : AppState) : AppState :=
  mkApp (codebooks app) (activeCodebook app) (results app)
        (reportContent app
         +:+ String JS.LF (String JS.LF ("---" +:+ String JS.LF (String JS.LF text))))
        (chatHistory app).

(** ** The approval modal under a sequence of edits *)

Inductive ModalEdit :=
| Toggle (index : nat)
| Change (index : nat) (field : EditedField) (value : string).

Definition modalStep (prev : list SuggestedThemeWithStatus) (e : ModalEdit)
    : list SuggestedThemeWithStatus :=
  match e with
  | Toggle index => handleToggleApproval index prev
  | Change index field value => handleFieldChange index field value prev
  end.

(** ** Invariants and notions the properties are stated with *)

(** Category names are pairwise distinct up to case. *)
Definition distinctNames (themes : list Theme) : Prop :=
  NoDup (map (fun t => JS.toLowerCase (name t)) themes).

(** The result a processed suggestion ends as. *)
Definition finalOf (s : SuggestedThemeWithStatus) : CodingResult :=
  coreResultNamed s (if accepted s then JS.trim (editedName s) else "Uncategorized").

(** The category an accepted suggestion proposes. *)
Definition themeOf (s : SuggestedThemeWithStatus) : Theme :=
  mkTheme (JS.trim (editedName s)) (JS.trim (editedDescription s)).

(** No carriage return and no line feed occurs in [s]. *)
Fixpoint lineFree (s : string) : bool :=
  match s with
  | EmptyString => true
  | String c rest => negb (Ascii.eqb c JS.CR) && negb (Ascii.eqb c JS.LF) && lineFree rest
  end.

(** A header the export writes as it is and the parser reads back as
    one field: no comma, no double quote, no line break. *)
Definition plainHeader (h : string) : bool :=
  negb (JS.needsQuoting h) && lineFree h.

(** Keys in the order in which an object lists its own keys: no key
    stands after one it ranks before, so that the array indices come
    first, by ascending value; [__proto__] is not among them.  A list
    without array indices and without [__proto__] is in that order. *)
Fixpoint keyOrdered (keys : list string) : bool :=
  match keys with
  | [] => true
  | k :: rest =>
      negb (String.eqb k "__proto__")
      && forallb (fun k' => negb (JS.ranksBefore k' k)) rest
      && keyOrdered rest
  end.

(** Some character of [s] is not white space. *)
Fixpoint hasInk (s : string) : bool :=
  match s with
  | EmptyString => false
  | String c rest => negb (JS.isWhiteSpace c) || hasInk rest
  end.

(** The first, respectively the last, character of [s] is there and is
    not white space. *)
Definition startsInk (s : string) : bool :=
  match s with
  | EmptyString => false
  | String c _ => negb (JS.isWhiteSpace c)
  end.

Fixpoint endsInk (s : string) : bool :=
  match s with
  | EmptyString => false
  | String c EmptyString => negb (JS.isWhiteSpace c)
  | String _ rest => endsInk rest
  end.

(** A reply the [try] block runs through: the parsed value holds,
    under [results], an array none of whose elements is [null]. *)
Definition notNull (v : Json) : bool :=
  match v with
  | JNull => false
  | _ => true
  end.

Definition mappable (parsedResponse : Json) : bool :=
  match getMember parsedResponse "results" with
  | Some (JArray items) => forallb notNull items
  | _ => false
  end.

Definition runsThrough (reply : ServiceReply) : bool :=
  match reply with
  | Parsed parsedResponse => mappable parsedResponse
  | _ => false
  end.

(** A suggestion that has a name and lacks a description. *)
Definition halfSuggestion (r : CodingResult) : bool :=
  match suggestedTheme r with
  | Some t => JS.truthy (name t) && negb (JS.truthy (description t))
  | None => false
  end.

(** A theme whose name and description are not empty and bear no
    white space at either end. *)
Definition wellNamed (t : Theme) : Prop :=
  name t <> "" /\ JS.trim (name t) = name t
  /\ description t <> "" /\ JS.trim (description t) = description t.

(** The empty name is no codebook, and the active name is empty or the
    name of a stored codebook. *)
Definition storeInv (app : AppState) : Prop :=
  codebooks app !! "" = None
  /\ (activeCodebook app = "" \/ is_Some (codebooks app !! activeCodebook app)).

(** [app'] has what [app] has and, at the end of the active codebook,
    possibly more themes. *)
Definition extendsThemes (app app' : AppState) : Prop :=
  activeCodebook app' = activeCodebook app
  /\ activeThemes app `prefix_of` activeThemes app'
  /\ (forall k, k <> activeCodebook app -> codebooks app' !! k = codebooks app !! k)
  /\ results app' = results app
  /\ reportContent app' = reportContent app
  /\ chatHistory app' = chatHistory app.

(** A text the codebook export writes as it is and the codebook import
    reads back as it is: not empty, without comma, double quote or line
    feed, without white space at either end. *)
Definition plainText (s : string) : bool :=
  negb (JS.needsQuoting s) && JS.truthy s && String.eqb (JS.trim s) s.

(** The number of results with a given sentiment and theme. *)
Definition countOf (tag theme : string) (results : list CodingResult) : nat :=
  length (filter (fun r => sentiment r = tag /\ themeName r = theme) results).

(** A chart has every theme once, with a count that is not zero. *)
Definition goodChart (m : list (string * nat)) : Prop :=
  NoDup m.*1 /\ Forall (fun p : string * nat => 1 <= p.2) m.

(** A question and its answer in the chat history. *)
Definition exchange (q : string * string) : list ChatMessage :=
  [mkChat true q.1; mkChat false q.2].


(** ** Sample inputs used by the examples below *)
Module Sample.

Definition row1 : Row := [("id", "1"); ("text", "ok")].
Definition row2 : Row := [("id", "2"); ("text", "ok")].

Definition record (response theme : string) (suggested : option Theme)
    : Api.AnalysisResult :=
  Api.mk response theme "Neutral" 1%Qc "because" suggested.

Definition first : Api.AnalysisResult := record "ok" "Praise" None.
Definition second : Api.AnalysisResult := record "ok" "Complaint" None.

(** A suggestion that names a theme but does not describe it. *)
Definition halfSuggested : Api.AnalysisResult :=
  record "ok" "Uncategorized" (Some (mkTheme "Billing" "")).

Definition fullySuggested : Api.AnalysisResult :=
  record "ok" "Uncategorized" (Some (mkTheme "Billing" "Invoices and payments")).

Definition app0 : AppState :=
  mkApp {[ "survey" := [mkTheme "Support" "Help desk"] ]} "survey" [] "" [].

Definition emptyBook : AppState :=
  mkApp {[ "survey" := [] ]} "survey" [] "" [].

(** The analysis page after an upload of [row1; row2]. *)
Definition page0 : Page.State :=
  Page.mk false None [row1; row2] ["id"; "text"] "text" false false [] [] None.

Definition coded (theme : string) : CodingResult :=
  mkCoding theme "Neutral" 1%Qc "because" "text" None (Some row1).

Definition five : list CodingResult :=
  [coded "a"; coded "b"; coded "c"; coded "d"; coded "e"].

(** A value with an embedded line feed. *)
Definition twoLineValue : list Row := [[("a", String "x" (String JS.LF "y"))]].

(** Two rows, one with a comma and double quotes in a value, one with
    an empty value. *)
Definition quotedRows : list Row :=
  [[("id", "1");
    ("text", "He said " +:+ String JS.QUOTE ("hi" +:+ String JS.QUOTE ", ok"))];
   [("id", "2"); ("text", "")]].

(** A header line between empty lines. *)
Definition headerOnly : string :=
  String JS.LF ("id,text" +:+ String JS.LF (String JS.LF "")).

(** A codebook file whose two lines name the same theme up to case. *)
Definition twoSupport : string :=
  "Support,Help desk" +:+ String JS.LF "support,Duplicate".

Definition twoPricing : list Theme :=
  [mkTheme "Pricing" "Cost"; mkTheme "pricing" "Fees"].

Definition suggestion (n d : string) : CodingResult :=
  mkCoding "Uncategorized" "Neutral" 1%Qc "because" "text"
           (Some (mkTheme n d)) (Some row1).

(** A suggestion in the approval modal, its fields as proposed. *)
Definition status (approved : bool) (n d : string) : SuggestedThemeWithStatus :=
  mkStatus (suggestion n d) approved n d.

(** Three suggestions in the modal: the second is rejected, the name
    of the third is edited. *)
Definition batch3 : list SuggestedThemeWithStatus :=
  handleFieldChange 2 EditedName " Shipping "
    (handleToggleApproval 1
       (seedSuggestions [suggestion "Billing" "Invoices"; suggestion "Other" "Misc";
                         suggestion "Delivery" "Delivery"])).

(** The analysis page while the approval modal is open, the run
    having been started in mode [mode]. *)
Definition awaiting (mode : Mode) (suggestions : list CodingResult) : Page.State :=
  Page.mk false None [] [] "" false true suggestions [] (Some mode).

(** A file whose first header is [__proto__], and one whose headers
    are array indices in descending order. *)
Definition protoHeader : string := "__proto__,b" +:+ String JS.LF "x,y".
Definition indexHeaders : string := "2,1" +:+ String JS.LF "x,y".

Definition rowGood : Row := [("id", "7"); ("text", "good")].
Definition rowBad : Row := [("id", "8"); ("text", "bad")].

Definition withResults (rs : list CodingResult) (app : AppState) : AppState :=
  mkApp (codebooks app) (activeCodebook app) rs (reportContent app) (chatHistory app).

(** An engine that words every [TypeError] alike. *)
Definition engine (_ : TypeErrorAt) : string := "TypeError".

(** A reply with one record that has no field at all, and a reply
    whose second record is [null]. *)
Definition shapeless : Json := JObject [("results", JArray [JObject []])].
Definition nullRecord : Json := JObject [("results", JArray [encodeRecord first; JNull])].

(** The state of a run on the uploaded rows [row1; row2] when the
    result set holds five results. *)
Definition run0 : Any.Run.State := anyState (withResults five app0, page0).

End Sample.

(** * Properties *)

Example parseCsv_quoted :
  parseCsv ("id,text" +:+ String JS.LF ("1," +:+ String JS.QUOTE ("a,b" +:+ String JS.QUOTE "")))
  = Ok (["id"; "text"], [[("id", "1"); ("text", "a,b")]]).
Proof. reflexivity. Qed.

(** ** Reconciliation of duplicate responses *)

(** Whenever some uploaded row carries the text of a record, the record
    is tied to the first such row, whatever its position in the batch. *)
Lemma originalDataRow_first_match uploaded col r index d :
  List.find (fun d => bool_decide (row_get d col = Some (Api.originalResponse r)))
            uploaded = Some d ->
  originalDataRow uploaded col r index = Some d.
Proof. unfold originalDataRow. by intros ->. Qed.

Lemma originalDataRow_same_text uploaded col r1 r2 i j d :
  d ∈ uploaded ->
  row_get d col = Some (Api.originalResponse r1) ->
  Api.originalResponse r1 = Api.originalResponse r2 ->
  originalDataRow uploaded col r1 i = originalDataRow uploaded col r2 j.
Proof.
  intros Hd Hget Heq. unfold originalDataRow. rewrite <- Heq.
  destruct (List.find _ uploaded) as [d'|] eqn:Hfind; [done|].
  apply list_elem_of_In in Hd.
  eapply find_none in Hfind; [|exact Hd].
  by rewrite bool_decide_eq_false in Hfind.
Qed.

(** The index is consulted only when no uploaded row carries the text. *)
Lemma originalDataRow_fallback uploaded col r index :
  (forall d, d ∈ uploaded -> row_get d col <> Some (Api.originalResponse r)) ->
  originalDataRow uploaded col r index = uploaded !! index.
Proof.
  intros Hno. unfold originalDataRow.
  destruct (List.find _ uploaded) as [d|] eqn:Hfind; [|done].
  apply find_some in Hfind as [Hin Hd].
  apply bool_decide_eq_true in Hd. apply list_elem_of_In in Hin.
  by destruct (Hno d Hin).
Qed.

(** C1 (as the code runs): two uploaded rows with the response text ok
    and two returned records with that text; both records are attached
    to the first row, the second row receives none. *)
Theorem reconcile_duplicates_collapse :
  map rawData (reconcile [Sample.row1; Sample.row2] "text" [Sample.first; Sample.second])
  = [Some Sample.row1; Some Sample.row1]
  /\ Some Sample.row2
     ∉ map rawData (reconcile [Sample.row1; Sample.row2] "text" [Sample.first; Sample.second]).
Proof.
  split; [reflexivity|].
  by intros [?|[?|?%elem_of_nil]%elem_of_cons]%elem_of_cons.
Qed.

(** ** Routing of returned records *)

Lemma isSuggestion_not_regular r : isSuggestion r = true -> isRegular r = false.
Proof.
  unfold isSuggestion, isRegular. destruct (suggestedTheme r) as [t|]; [|done].
  intros [Hn _]%andb_true_iff. by rewrite Hn.
Qed.

(** A record is lost by both filters exactly when its suggestion has a
    name and no description. *)
Lemma dropped_iff r :
  isSuggestion r = false /\ isRegular r = false
  <-> exists t, suggestedTheme r = Some t /\ name t <> "" /\ description t = "".
Proof.
  unfold isSuggestion, isRegular, JS.truthy. destruct (suggestedTheme r) as [t|].
  - split.
    + intros [Hs Hr]. exists t. split; [done|].
      apply negb_false_iff in Hr. rewrite Hr in Hs. cbn in Hs.
      apply negb_true_iff, String.eqb_neq in Hr.
      apply negb_false_iff, String.eqb_eq in Hs. done.
    + intros (t' & [= <-] & Hn & Hd).
      apply String.eqb_neq in Hn. rewrite Hn, Hd. done.
  - split; [by intros [_ ?]|by intros (? & ? & _)].
Qed.

(** C4 (as the code runs): a returned record whose suggestion has a name
    and an empty description is neither queued for approval nor
    finalized; after the run it is in no list of the state. *)
Theorem half_suggestion_is_dropped :
  let st := runAnalysis replace (ApiResults [Sample.halfSuggested])
              (Sample.app0, Sample.page0) in
  isSuggestion (toCodingResult [Sample.row1; Sample.row2] "text" 0 Sample.halfSuggested) = false
  /\ results st.1 = []
  /\ Page.suggestedThemes st.2 = []
  /\ Page.pendingResults st.2 = []
  /\ Page.isSuggestionModalOpen st.2 = false.
Proof. cbv zeta. by repeat split. Qed.

(** A suggestion with a name and a description opens the approval
    modal and is held there; the result set waits. *)
Example full_suggestion_is_queued :
  let st := runAnalysis replace (ApiResults [Sample.fullySuggested; Sample.first])
              (Sample.app0, Sample.page0) in
  results st.1 = []
  /\ map themeName (Page.pendingResults st.2) = ["Praise"]
  /\ map suggestedTheme (Page.suggestedThemes st.2)
     = [Some (mkTheme "Billing" "Invoices and payments")]
  /\ Page.isSuggestionModalOpen st.2 = true.
Proof. cbv zeta. by repeat split. Qed.

(** ** Failure of the classification call *)

Lemma runAnalysis_throws mode message app pg :
  let st := runAnalysis mode (ApiThrows message) (app, pg) in
  st.1 = app
  /\ Page.uploadedData st.2 = Page.uploadedData pg
  /\ Page.dataHeaders st.2 = Page.dataHeaders pg
  /\ Page.responseColumn st.2 = Page.responseColumn pg.
Proof.
  cbv zeta. unfold runAnalysis.
  by destruct (negb (JS.truthy (Page.responseColumn pg))).
Qed.

(** The mapping of the records stops at the first [null]. *)
Lemma reconcileFrom_null engine uploaded col index records :
  forallb notNull records = false ->
  exists e, Any.reconcileFrom engine uploaded col index records = Throw e.
Proof.
  revert index. induction records as [|v records IH]; intros index; [done|].
  cbn [forallb Any.reconcileFrom]. destruct v; cbn [notNull andb Any.toCodingResult];
    try (intros Hrest; destruct (IH (S index) Hrest) as [e ->]; by eexists).
  intros _. by eexists.
Qed.

(** Records none of which is [null] are all mapped, whatever they hold. *)
Lemma reconcileFrom_total engine uploaded col index records :
  forallb notNull records = true ->
  exists rs, Any.reconcileFrom engine uploaded col index records = Ok rs
             /\ length rs = length records.
Proof.
  revert index. induction records as [|v records IH]; intros index; [by exists []|].
  cbn [forallb Any.reconcileFrom]. intros [Hv Hrest]%andb_true_iff.
  destruct (IH (S index) Hrest) as (rs & -> & Hlen).
  destruct v; try done; cbn [Any.toCodingResult]; eexists; (split; [done|]); cbn; by rewrite Hlen.
Qed.

Lemma tryBlock_throws engine ai reply uploaded col :
  ai = false \/ runsThrough reply = false ->
  exists e, Any.tryBlock engine ai reply uploaded col = Throw e.
Proof.
  unfold Any.tryBlock, Any.callService. intros [->|Hreply]; [by eexists|].
  destruct ai; cbn [negb]; [|by eexists].
  destruct reply as [message|message|parsedResponse]; [by eexists|by eexists|].
  cbn [runsThrough] in Hreply. unfold mappable in Hreply. unfold Any.resultsArray.
  destruct parsedResponse as [|b|n|s|items|members]; try by eexists.
  destruct (getMember (JObject members) "results") as [[|b|n|s|items|members']|];
    try by eexists.
  by apply reconcileFrom_null.
Qed.

Lemma tryBlock_returns engine reply uploaded col :
  runsThrough reply = true ->
  exists rs, Any.tryBlock engine true reply uploaded col = Ok rs.
Proof.
  unfold Any.tryBlock, Any.callService. cbn [negb].
  destruct reply as [message|message|parsedResponse]; [done|done|].
  cbn [runsThrough]. unfold mappable, Any.resultsArray.
  destruct parsedResponse as [|b|n|s|items|members]; try done.
  destruct (getMember (JObject members) "results") as [[|b|n|s|items|members']|];
    try done.
  intros Hitems. destruct (reconcileFrom_total engine uploaded col 0 items Hitems)
    as (rs & Hrs & _). by exists rs.
Qed.

(** C8 (amended): when the [try] block throws, that is when there is
    no API client, the call is rejected, the text of the reply is not
    JSON, or the parsed reply holds no array of records other than
    [null] under [results], the run reports an error and the result
    set, the uploaded rows, the headers, the selected response column
    and the held suggestions and pending results are what they were
    before the run. *)
Theorem runAnalysis_failure_keeps_data engine mode ai reply st :
  ai = false \/ runsThrough reply = false ->
  let st' := Any.runAnalysis engine mode ai reply st in
  is_Some (Any.Run.error st')
  /\ Any.Run.results st' = Any.Run.results st
  /\ Any.Run.uploadedData st' = Any.Run.uploadedData st
  /\ Any.Run.dataHeaders st' = Any.Run.dataHeaders st
  /\ Any.Run.responseColumn st' = Any.Run.responseColumn st
  /\ Any.Run.suggestedThemes st' = Any.Run.suggestedThemes st
  /\ Any.Run.pendingResults st' = Any.Run.pendingResults st.
Proof.
  intros Hfail. cbv zeta. unfold Any.runAnalysis.
  destruct (negb (JS.truthy (Any.Run.responseColumn st))); [by split; [eexists|]|].
  destruct (tryBlock_throws engine ai reply (Any.Run.uploadedData st)
              (Any.Run.responseColumn st) Hfail) as [e ->].
  by split; [eexists|].
Qed.

(** A reply whose second record is [null], on a page with uploaded
    rows and a result set of five. *)
Lemma runAnalysis_failure_keeps_data_witness :
  runsThrough (Parsed Sample.nullRecord) = false
  /\ Any.Run.results
       (Any.runAnalysis Sample.engine append true (Parsed Sample.nullRecord) Sample.run0)
     = map anyCoding Sample.five
  /\ Any.Run.uploadedData
       (Any.runAnalysis Sample.engine append true (Parsed Sample.nullRecord) Sample.run0)
     = [Sample.row1; Sample.row2].
Proof.
  split; [reflexivity|].
  destruct (runAnalysis_failure_keeps_data Sample.engine append true
              (Parsed Sample.nullRecord) Sample.run0 (or_intror eq_refl))
    as (_ & Hres & Hup & _).
  split; [exact Hres|exact Hup].
Defined.

(** C8 (as stated) fails: a reply whose one record has none of the
    expected fields cannot be decoded as the expected shape, yet the
    run replaces the result set of five by a result without theme,
    sentiment, confidence and reasoning, and clears the upload. *)
Lemma shapeless_record_is_committed :
  decode Sample.shapeless = None
  /\ Any.Run.results
       (Any.runAnalysis Sample.engine replace true (Parsed Sample.shapeless) Sample.run0)
     = [Any.mkCoding None None None None "text" None (Some Sample.row1)]
  /\ Any.Run.results
       (Any.runAnalysis Sample.engine replace true (Parsed Sample.shapeless) Sample.run0)
     <> Any.Run.results Sample.run0
  /\ Any.Run.uploadedData
       (Any.runAnalysis Sample.engine replace true (Parsed Sample.shapeless) Sample.run0)
     = []
  /\ Any.Run.uploadedData Sample.run0 = [Sample.row1; Sample.row2]
  /\ Any.Run.error
       (Any.runAnalysis Sample.engine replace true (Parsed Sample.shapeless) Sample.run0)
     = None.
Proof. repeat split. intros Heq. discriminate Heq. Qed.

(** Every reply the [try] block runs through is committed: with a
    selected column, the upload is cleared and no error is reported. *)
Lemma accepted_run_clears_upload engine mode reply st :
  runsThrough reply = true ->
  Any.Run.responseColumn st <> "" ->
  let st' := Any.runAnalysis engine mode true reply st in
  Any.Run.error st' = None
  /\ Any.Run.uploadedData st' = []
  /\ Any.Run.dataHeaders st' = []
  /\ Any.Run.responseColumn st' = "".
Proof.
  intros Hreply Hcol. cbv zeta. unfold Any.runAnalysis.
  assert (Htruthy : JS.truthy (Any.Run.responseColumn st) = true).
  { unfold JS.truthy. by destruct (String.eqb_spec (Any.Run.responseColumn st) ""). }
  rewrite Htruthy. cbn [negb].
  destruct (tryBlock_returns engine reply (Any.Run.uploadedData st)
              (Any.Run.responseColumn st) Hreply) as [rs ->].
  by destruct (0 <? _)%nat.
Qed.

Example undecodable_reply_reports_error :
  Any.Run.error
    (Any.runAnalysis Sample.engine replace true (NotJson "Unexpected token") Sample.run0)
  = Some ("An error occurred while communicating with the API. Please try again."
          +:+ String JS.LF "Details: Unexpected token").
Proof. reflexivity. Qed.

(** *** The run on the replies of the expected shape *)

Lemma decodeRecord_encodeRecord r : decodeRecord (encodeRecord r) = Some r.
Proof. destruct r as [response theme sent score reason [[n d]|]]; reflexivity. Qed.

(** Every list of typed records is the decoding of a reply. *)
Lemma decode_encode records : decode (encode records) = Some records.
Proof.
  unfold decode, encode. cbn. induction records as [|r records IH]; [done|].
  cbn [map decodeRecords]. by rewrite decodeRecord_encodeRecord, IH.
Qed.

Lemma find_ext {A} (f g : A -> bool) (l : list A) :
  (forall a, f a = g a) -> List.find f l = List.find g l.
Proof.
  intros Hfg. induction l as [|a l IH]; [done|]. cbn. by rewrite Hfg, IH.
Qed.

Lemma originalDataRow_encodeRecord uploaded col r index :
  Any.originalDataRow uploaded col (encodeRecord r) index
  = originalDataRow uploaded col r index.
Proof.
  unfold Any.originalDataRow, originalDataRow.
  rewrite (find_ext _ (fun d => bool_decide (row_get d col = Some (Api.originalResponse r))));
    [done|].
  intros d. unfold readRow.
  change (getMember (encodeRecord r) "originalResponse")
    with (Some (JString (Api.originalResponse r))).
  destruct (row_get d col) as [s|].
  - cbn [strictEq]. destruct (String.eqb_spec s (Api.originalResponse r)) as [->|Hne].
    + by rewrite bool_decide_eq_true_2.
    + rewrite bool_decide_eq_false_2; [done|]. by intros [= ?].
  - rewrite bool_decide_eq_false_2 by done. by destruct (JS.inherited col).
Qed.

Lemma toCodingResult_encodeRecord engine uploaded col index r :
  Any.toCodingResult engine uploaded col index (encodeRecord r)
  = Ok (anyCoding (toCodingResult uploaded col index r)).
Proof.
  unfold Any.toCodingResult. cbn [encodeRecord].
  rewrite originalDataRow_encodeRecord.
  destruct r as [response theme sent score reason [[n d]|]]; reflexivity.
Qed.

Lemma reconcileFrom_encode engine uploaded col index records :
  Any.reconcileFrom engine uploaded col index (map encodeRecord records)
  = Ok (map anyCoding (imap (fun i => toCodingResult uploaded col (index + i)) records)).
Proof.
  revert index. induction records as [|r records IH]; intros index; [done|].
  cbn [map Any.reconcileFrom]. rewrite toCodingResult_encodeRecord, IH.
  rewrite imap_cons, Nat.add_0_r. cbn [map]. do 3 f_equal.
  apply imap_ext. intros i x _. cbn. f_equal. lia.
Qed.

Lemma reconcile_encode engine uploaded col records :
  Any.reconcileFrom engine uploaded col 0 (map encodeRecord records)
  = Ok (map anyCoding (reconcile uploaded col records)).
Proof.
  rewrite reconcileFrom_encode. unfold reconcile. do 2 f_equal.
Qed.

Lemma isSuggestion_anyCoding r : Any.isSuggestion (anyCoding r) = isSuggestion r.
Proof. unfold Any.isSuggestion, isSuggestion. cbn. by destruct (suggestedTheme r). Qed.

Lemma isRegular_anyCoding r : Any.isRegular (anyCoding r) = isRegular r.
Proof. unfold Any.isRegular, isRegular. cbn. by destruct (suggestedTheme r). Qed.

Lemma filter_map_commute {A B} (f : A -> B) (p : A -> bool) (q : B -> bool) (l : list A) :
  (forall a, q (f a) = p a) ->
  filter (fun b => q b) (map f l) = map f (filter (fun a => p a) l).
Proof.
  intros Hqp. induction l as [|a l IH]; [done|].
  cbn [map]. rewrite !filter_cons, Hqp. destruct (decide (p a)); cbn [map]; by rewrite IH.
Qed.

(** On a reply that holds typed records and nothing else, the run is
    the run of the typed model. *)
Lemma runAnalysis_expected_shape engine mode records st :
  Any.runAnalysis engine mode true (Parsed (encode records)) (anyState st)
  = anyState (runAnalysis mode (ApiResults records) st).
Proof.
  destruct st as [app pg]. unfold Any.runAnalysis, runAnalysis.
  change (Any.Run.responseColumn (anyState (app, pg))) with (Page.responseColumn pg).
  change (Any.Run.uploadedData (anyState (app, pg))) with (Page.uploadedData pg).
  destruct (negb (JS.truthy (Page.responseColumn pg))); [reflexivity|].
  change (Any.tryBlock engine true (Parsed (encode records)) (Page.uploadedData pg)
            (Page.responseColumn pg))
    with (Any.reconcileFrom engine (Page.uploadedData pg) (Page.responseColumn pg) 0
            (map encodeRecord records)).
  rewrite reconcile_encode.
  rewrite (filter_map_commute anyCoding isSuggestion Any.isSuggestion)
    by apply isSuggestion_anyCoding.
  rewrite (filter_map_commute anyCoding isRegular Any.isRegular)
    by apply isRegular_anyCoding.
  rewrite length_map.
  destruct (0 <? length (filter (fun r => isSuggestion r)
                           (reconcile (Page.uploadedData pg) (Page.responseColumn pg)
                              records)))%nat; [reflexivity|].
  unfold anyState, mergeResults. cbn [fst snd results].
  destruct mode; [reflexivity|].
  rewrite bool_decide_eq_true_2 by done. rewrite bool_decide_eq_true_2 by done.
  by rewrite map_app.
Qed.

(** A run that throws is the failing run of the typed model. *)
Lemma runAnalysis_thrown engine mode ai reply st e :
  Any.tryBlock engine ai reply (Page.uploadedData st.2) (Page.responseColumn st.2) = Throw e ->
  Any.runAnalysis engine mode ai reply (anyState st)
  = anyState (runAnalysis mode (ApiThrows e) st).
Proof.
  destruct st as [app pg]. unfold Any.runAnalysis, runAnalysis, anyState.
  cbn [fst snd Any.Run.responseColumn Any.Run.uploadedData]. intros ->.
  by destruct (negb (JS.truthy (Page.responseColumn pg))).
Qed.

(** ** Append and replace *)

Lemma handleSetThemes_results f app : results (handleSetThemes f app) = results app.
Proof. unfold handleSetThemes. by destruct (negb _). Qed.

Lemma handleAddNewThemes_results newThemes app :
  results (handleAddNewThemes newThemes app) = results app.
Proof.
  unfold handleAddNewThemes. destruct (negb _); [done|].
  destruct (0 <? _)%nat; [apply handleSetThemes_results|done].
Qed.

(** The merge at the end of the approval workflow follows the mode the
    page holds. *)
Lemma handleSuggestionsComplete_results processed newThemes app pg :
  results (handleSuggestionsComplete processed newThemes (app, pg)).1
  = match Page.analysisMode pg with
    | Some append => results app ++ (Page.pendingResults pg ++ processed)
    | _ => Page.pendingResults pg ++ processed
    end.
Proof.
  cbn. rewrite handleAddNewThemes_results. unfold mergeResults.
  destruct (Page.analysisMode pg) as [[]|]; by cbn.
Qed.

(** C5: a run started in mode [mode] on a page with a response column
    selected.  Without suggestions the result set becomes, in append
    mode, the former one followed by the finalized records, and in
    replace mode the finalized records alone.  With suggestions the
    result set is left as it is until the approval workflow completes,
    and the merge done then, whatever the processed suggestions are,
    obeys the mode the run was started with. *)
Theorem run_merges_by_mode mode records app pg :
  JS.truthy (Page.responseColumn pg) = true ->
  let newResults := reconcile (Page.uploadedData pg) (Page.responseColumn pg) records in
  let regular := filter (fun r => isRegular r) newResults in
  let st := runAnalysis mode (ApiResults records) (app, pg) in
  match filter (fun r => isSuggestion r) newResults with
  | [] =>
      results st.1
      = match mode with
        | append => results app ++ regular
        | replace => regular
        end
  | _ :: _ =>
      results st.1 = results app
      /\ Page.analysisMode st.2 = Some mode
      /\ forall processed newThemes,
          results (handleSuggestionsComplete processed newThemes st).1
          = match mode with
            | append => results app ++ (regular ++ processed)
            | replace => regular ++ processed
            end
  end.
Proof.
  intros Hcol. cbv zeta. unfold runAnalysis. rewrite Hcol. cbn [negb].
  destruct (filter (fun r => isSuggestion r) _) as [|s ss] eqn:Hsug.
  - cbn. unfold mergeResults. by destruct mode.
  - cbn [length Nat.ltb Nat.leb fst snd]. split; [done|]. split; [done|].
    intros processed newThemes.
    rewrite handleSuggestionsComplete_results. by destruct mode.
Qed.

(** A result set of five and a batch of three finalized records: eight
    results in append mode, the five first and in their order; three in
    replace mode. *)
Lemma run_merges_by_mode_witness :
  JS.truthy (Page.responseColumn Sample.page0) = true
  /\ results (runAnalysis append
                (ApiResults [Sample.first; Sample.second; Sample.first])
                (Sample.withResults Sample.five Sample.app0, Sample.page0)).1
     = Sample.five ++ [Sample.coded "Praise"; Sample.coded "Complaint"; Sample.coded "Praise"].
Proof.
  split; [reflexivity|].
  exact (run_merges_by_mode append [Sample.first; Sample.second; Sample.first]
           (Sample.withResults Sample.five Sample.app0) Sample.page0 eq_refl).
Defined.

Example append_five_three :
  length (results (runAnalysis append
                     (ApiResults [Sample.first; Sample.second; Sample.first])
                     (Sample.withResults Sample.five Sample.app0, Sample.page0)).1) = 8
  /\ length (results (runAnalysis replace
                        (ApiResults [Sample.first; Sample.second; Sample.first])
                        (Sample.withResults Sample.five Sample.app0, Sample.page0)).1) = 3.
Proof. by split. Qed.

(** ** Uniqueness of category names up to case *)

Lemma someNamed_spec themes n :
  someNamed themes n = true
  <-> JS.toLowerCase n ∈ map (fun t => JS.toLowerCase (name t)) themes.
Proof.
  unfold someNamed, sameName. rewrite existsb_exists, list_elem_of_fmap. split.
  - intros (t & Hin & Heq). apply bool_decide_eq_true in Heq.
    exists t. split; [done|by apply list_elem_of_In].
  - intros (t & Heq & Hin). exists t. split; [by apply list_elem_of_In|].
    by apply bool_decide_eq_true.
Qed.

Lemma activeThemes_handleSetThemes f app :
  activeThemes (handleSetThemes f app)
  = if JS.truthy (activeCodebook app) then f (activeThemes app) else activeThemes app.
Proof.
  unfold handleSetThemes, activeThemes.
  destruct (JS.truthy (activeCodebook app)); cbn; [|done].
  by rewrite lookup_insert_eq.
Qed.

(** Adding distinct new names that avoid the present ones keeps the
    names distinct. *)
Lemma distinctNames_app prev new :
  distinctNames prev -> distinctNames new ->
  (forall t, t ∈ new -> someNamed prev (name t) = false) ->
  distinctNames (prev ++ new).
Proof.
  unfold distinctNames. intros Hprev Hnew Hfresh.
  rewrite map_app. apply NoDup_app. split; [done|]. split; [|done].
  intros n Hn Hn'. apply list_elem_of_fmap in Hn' as (t & -> & Ht).
  apply someNamed_spec in Hn. by rewrite (Hfresh t Ht) in Hn.
Qed.

Lemma distinctNames_filter P `{forall t : Theme, Decision (P t)} themes :
  distinctNames themes -> distinctNames (filter P themes).
Proof.
  unfold distinctNames. induction themes as [|t ts IH]; [done|].
  rewrite filter_cons. cbn [map]. rewrite NoDup_cons. intros [Hnot Hts].
  destruct (decide (P t)); [|by apply IH].
  cbn [map]. rewrite NoDup_cons. split; [|by apply IH].
  intros Hin. apply Hnot.
  apply list_elem_of_fmap in Hin as (t' & -> & Ht'%list_elem_of_filter).
  apply list_elem_of_fmap. exists t'. by destruct Ht'.
Qed.

(** The single add keeps category names distinct up to case. *)
Lemma handleAddTheme_distinct n d app :
  distinctNames (activeThemes app) ->
  distinctNames (activeThemes (handleAddTheme n d app).1).
Proof.
  intros Hinv. unfold handleAddTheme.
  destruct (_ && _); [|done].
  destruct (someNamed _ _) eqn:Hsome; [done|]. cbn [fst].
  rewrite activeThemes_handleSetThemes. destruct (JS.truthy _); [|done].
  apply distinctNames_app; [done|apply NoDup_singleton|].
  by intros t ->%list_elem_of_singleton.
Qed.

(** The adding of the same name in another case is refused: the store is
    left as it is and a message is shown. *)
Example add_support_twice :
  let app1 := (handleAddTheme "Support" "Help desk" Sample.emptyBook).1 in
  activeThemes app1 = [mkTheme "Support" "Help desk"]
  /\ (handleAddTheme "support" "Again" app1).1 = app1
  /\ is_Some (handleAddTheme "support" "Again" app1).2.
Proof. cbv zeta. split; [|split]; [reflexivity..|]. by eexists. Qed.

(** The bulk import keeps names distinct when the imported batch has
    distinct names itself. *)
Lemma mergeImported_distinct newThemes prevThemes :
  distinctNames prevThemes -> distinctNames newThemes ->
  distinctNames (mergeImported newThemes prevThemes).
Proof.
  intros Hprev Hnew. unfold mergeImported.
  apply distinctNames_app; [done|by apply distinctNames_filter|].
  intros t [Ht _]%list_elem_of_filter. by apply negb_prop_elim, Is_true_false in Ht.
Qed.

(** C3 (as the code runs): the bulk import and the folding in of
    approved suggestions compare new names with the names already
    stored only, so two entries of one batch that differ in case alone
    are both added and the names of the taxonomy are no longer
    distinct. *)
Theorem batch_duplicates_are_added :
  distinctNames (activeThemes Sample.emptyBook)
  /\ activeThemes (handleFileUpload Sample.twoSupport Sample.emptyBook)
     = [mkTheme "Support" "Help desk"; mkTheme "support" "Duplicate"]
  /\ ~ distinctNames (activeThemes (handleFileUpload Sample.twoSupport Sample.emptyBook))
  /\ activeThemes (handleAddNewThemes Sample.twoPricing Sample.emptyBook)
     = Sample.twoPricing
  /\ ~ distinctNames (activeThemes (handleAddNewThemes Sample.twoPricing Sample.emptyBook)).
Proof.
  assert (Hfile : activeThemes (handleFileUpload Sample.twoSupport Sample.emptyBook)
                  = [mkTheme "Support" "Help desk"; mkTheme "support" "Duplicate"])
    by reflexivity.
  assert (Hsugg : activeThemes (handleAddNewThemes Sample.twoPricing Sample.emptyBook)
                  = Sample.twoPricing) by reflexivity.
  split; [apply NoDup_nil_2|]. split; [done|].
  rewrite Hfile, Hsugg. unfold distinctNames.
  split; [|split; [done|]]; cbn; rewrite NoDup_cons; intros [Hnot _]; apply Hnot; left.
Qed.

(** ** Completion of the approval workflow *)

Lemma finishStep_fold ps newThemes finalResults :
  fold_left finishStep ps (newThemes, finalResults)
  = (newThemes ++ map themeOf (filter (fun s => accepted s) ps),
     finalResults ++ map finalOf ps).
Proof.
  revert newThemes finalResults.
  induction ps as [|s ps IH]; intros newThemes finalResults.
  - cbn. by rewrite !app_nil_r.
  - cbn [fold_left]. rewrite filter_cons.
    assert (Hstep : finishStep (newThemes, finalResults) s
                    = (newThemes ++ (if accepted s then [themeOf s] else []),
                       finalResults ++ [finalOf s])).
    { unfold finishStep, finalOf, themeOf.
      destruct (accepted s); by rewrite ?app_nil_r. }
    rewrite Hstep, IH. case_decide as Hacc.
    + apply Is_true_true in Hacc. rewrite Hacc. cbn [map]. by rewrite <- !app_assoc.
    + apply Is_true_false in Hacc. rewrite Hacc. cbn [map].
      by rewrite app_nil_r, <- !app_assoc.
Qed.

(** [handleFinish] names every result after its own suggestion and
    proposes one theme for every accepted suggestion, in order. *)
Lemma handleFinish_spec ps :
  handleFinish ps = (map finalOf ps, map themeOf (filter (fun s => accepted s) ps)).
Proof. unfold handleFinish. by rewrite finishStep_fold. Qed.

Lemma existingThemeNames_has themes n :
  bool_decide (JS.toLowerCase n
               ∈ (list_to_set (map (fun t => JS.toLowerCase (name t)) themes) : gset string))
  = someNamed themes n.
Proof.
  apply eq_true_iff_eq. rewrite bool_decide_eq_true, elem_of_list_to_set.
  symmetry. apply someNamed_spec.
Qed.

(** What [handleAddNewThemes] leaves in the active codebook. *)
Lemma activeThemes_handleAddNewThemes newThemes app :
  JS.truthy (activeCodebook app) = true ->
  activeThemes (handleAddNewThemes newThemes app)
  = activeThemes app
    ++ filter (fun t => negb (someNamed (activeThemes app) (name t))) newThemes.
Proof.
  intros Hactive. unfold handleAddNewThemes. rewrite Hactive. cbn [negb].
  erewrite (list_filter_iff _ (fun t => negb (someNamed (activeThemes app) (name t))));
    [|intros t; by rewrite existingThemeNames_has].
  destruct (filter _ newThemes) as [|t ts] eqn:Hunique.
  - cbn. by rewrite app_nil_r.
  - cbn [length Nat.ltb Nat.leb]. rewrite activeThemes_handleSetThemes. by rewrite Hactive.
Qed.

(** C6 (amended): on completion of the approval workflow with an active
    taxonomy selected, the result set receives, in one merge after the
    pending results, one result for every record of the batch, named
    after the trimmed edited name when the record is accepted and
    Uncategorized otherwise; the active taxonomy receives, in order, the
    theme of every accepted record whose name is not already present
    up to case, and no theme for an accepted record whose name is. *)
Theorem finishSuggestions_effect ps app pg :
  JS.truthy (activeCodebook app) = true ->
  let st := finishSuggestions ps (app, pg) in
  results st.1
  = match Page.analysisMode pg with
    | Some append => results app ++ (Page.pendingResults pg ++ map finalOf ps)
    | _ => Page.pendingResults pg ++ map finalOf ps
    end
  /\ map themeName (map finalOf ps)
     = map (fun s => if accepted s then JS.trim (editedName s) else "Uncategorized") ps
  /\ activeThemes st.1
     = activeThemes app
       ++ filter (fun t => negb (someNamed (activeThemes app) (name t)))
            (map themeOf (filter (fun s => accepted s) ps)).
Proof.
  intros Hactive. cbv zeta. unfold finishSuggestions. rewrite handleFinish_spec.
  split; [apply handleSuggestionsComplete_results|]. split.
  - rewrite map_map. apply map_ext. intros s. unfold finalOf. by destruct (accepted s).
  - cbn [handleSuggestionsComplete fst].
    change (activeThemes (mkApp ?c ?a ?r ?p ?h)) with (default [] (c !! a)).
    by apply activeThemes_handleAddNewThemes.
Qed.

(** A batch of three with two approved and one rejected: two new
    categories, three merged results, the rejected one Uncategorized. *)
Lemma finishSuggestions_effect_witness :
  JS.truthy (activeCodebook Sample.app0) = true
  /\ activeThemes (finishSuggestions Sample.batch3
                     (Sample.app0, Sample.awaiting replace [])).1
     = [mkTheme "Support" "Help desk"; mkTheme "Billing" "Invoices";
        mkTheme "Shipping" "Delivery"]
  /\ map themeName (results (finishSuggestions Sample.batch3
                               (Sample.app0, Sample.awaiting replace [])).1)
     = ["Billing"; "Uncategorized"; "Shipping"].
Proof.
  split; [reflexivity|].
  destruct (finishSuggestions_effect Sample.batch3 Sample.app0
              (Sample.awaiting replace []) eq_refl) as (Hres & _ & Hthemes).
  split; [exact Hthemes|]. rewrite Hres. reflexivity.
Defined.

(** C6 (as stated) fails: an approved suggestion with a name and a
    description, whose name is the one of a stored category in another
    case, yields no new category, while its result carries that name. *)
Lemma approved_duplicate_adds_no_category :
  let s := Sample.status true "support" "Helpful staff" in
  let st := finishSuggestions [s] (Sample.app0, Sample.awaiting replace [Sample.suggestion "support" "Helpful staff"]) in
  accepted s = true
  /\ activeThemes st.1 = activeThemes Sample.app0
  /\ length (activeThemes st.1) = length (activeThemes Sample.app0)
  /\ map themeName (results st.1) = ["support"].
Proof. cbv zeta. by repeat split. Qed.

(** ** Too few lines *)

(** C7 (amended): the parser throws its format error exactly when the
    text, once leading and trailing white space is trimmed off, splits
    into fewer than two lines; with two lines or more it returns the
    headers read from the first line and the rows. *)
Theorem parseCsv_throws_iff_short text :
  let lines := JS.splitLines (JS.trim text) in
  (length lines < 2
   /\ parseCsv text = Throw "CSV must have a header row and at least one data row.")
  \/ (2 <= length lines
      /\ exists data, parseCsv text = Ok (parseLine (hd "" lines), data)).
Proof.
  cbv zeta. unfold parseCsv, csvLines.
  destruct (length (JS.splitLines (JS.trim text)) <? 2)%nat eqn:Hlen.
  - left. apply Nat.ltb_lt in Hlen. done.
  - right. apply Nat.ltb_ge in Hlen. split; [done|]. by eexists.
Qed.

(** C7 (as stated) fails: a header line between empty lines splits into
    four lines, and the parser throws, for it trims the text first. *)
Lemma parseCsv_untrimmed_lines_throw :
  length (JS.splitLines Sample.headerOnly) = 4
  /\ ~ length (JS.splitLines Sample.headerOnly) < 2
  /\ parseCsv Sample.headerOnly
     = Throw "CSV must have a header row and at least one data row.".
Proof.
  assert (Hlen : length (JS.splitLines Sample.headerOnly) = 4) by reflexivity.
  split; [done|]. split; [rewrite Hlen; lia|reflexivity].
Qed.

(** ** Cascade of a codebook deletion *)

Lemma sortedNames_elem cb k : k ∈ sortedNames cb <-> is_Some (cb !! k).
Proof.
  unfold sortedNames. rewrite merge_sort_Permutation, list_elem_of_fmap. split.
  - intros ([k' v] & -> & Hin). apply elem_of_map_to_list in Hin. by exists v.
  - intros [v Hv]. exists (k, v). split; [done|]. by apply elem_of_map_to_list.
Qed.

Lemma sortedNames_nil cb : sortedNames cb = [] -> cb = ∅.
Proof.
  intros Hnil. apply map_eq. intros k. rewrite lookup_empty.
  apply eq_None_not_Some. rewrite <- sortedNames_elem, Hnil. apply not_elem_of_nil.
Qed.

Lemma sortedNames_first cb first rest k :
  sortedNames cb = first :: rest -> k ∈ sortedNames cb -> String.le first k.
Proof.
  intros Hsorted Hk.
  pose proof (StronglySorted_merge_sort String.le (map_to_list cb).*1) as Hs.
  fold (sortedNames cb) in Hs. rewrite Hsorted in Hs, Hk.
  apply StronglySorted_inv in Hs as [_ Hall].
  apply elem_of_cons in Hk as [->|Hk]; [done|].
  by eapply Forall_forall in Hall.
Qed.

(** C9: deleting the active codebook empties the result set, the report
    and the chat history, removes the codebook, and makes active the
    remaining name that is least in code-unit order, or the empty name
    when no codebook remains. *)
Theorem delete_active_codebook app :
  let app' := handleDeleteCodebook (activeCodebook app) app in
  results app' = []
  /\ reportContent app' = ""
  /\ chatHistory app' = []
  /\ codebooks app' = delete (activeCodebook app) (codebooks app)
  /\ ((codebooks app' = ∅ /\ activeCodebook app' = "")
      \/ (is_Some (codebooks app' !! activeCodebook app')
          /\ forall k, is_Some (codebooks app' !! k) -> String.le (activeCodebook app') k)).
Proof.
  cbv zeta. unfold handleDeleteCodebook. cbn [results reportContent chatHistory codebooks].
  do 4 (split; [done|]). cbn [activeCodebook]. rewrite bool_decide_eq_true_2 by done.
  destruct (sortedNames _) as [|first rest] eqn:Hsorted.
  - left. split; [by apply sortedNames_nil|done].
  - right. split.
    + apply sortedNames_elem. rewrite Hsorted. apply elem_of_cons. by left.
    + intros k Hk. eapply sortedNames_first; [done|]. by apply sortedNames_elem.
Qed.

Example delete_picks_first_name :
  activeCodebook
    (handleDeleteCodebook "m"
       (mkApp {[ "m" := []; "z" := []; "b" := []; "k" := [] ]} "m"
              [Sample.coded "a"] "report" [mkChat true "hello"]))
  = "b".
Proof. reflexivity. Qed.

(** ** Shape of the parsed rows *)

Lemma orEmpty_default (a : option string) : JS.orEmpty a = default "" a.
Proof.
  destruct a as [v|]; [|done]. cbn. unfold JS.truthy.
  destruct (String.eqb_spec v ""); by subst.
Qed.

Lemma row_get_is_Some (row : Row) k : is_Some (row_get row k) <-> k ∈ row_keys row.
Proof.
  unfold row_keys. induction row as [|[k' v'] row IH]; cbn.
  - rewrite elem_of_nil. split; [by intros [? ?]|done].
  - rewrite elem_of_cons. destruct (String.eqb_spec k' k) as [->|Hne].
    + split; [by left|by eexists].
    + rewrite IH. naive_solver.
Qed.

Lemma row_get_None (row : Row) k : row_get row k = None <-> k ∉ row_keys row.
Proof.
  rewrite <- row_get_is_Some. destruct (row_get row k) as [v|]; split.
  - done.
  - intros Hnot. destruct Hnot. by eexists.
  - intros _ [? ?]. done.
  - done.
Qed.

Lemma row_keys_update row key val : row_keys (row_update row key val) = row_keys row.
Proof.
  unfold row_keys. induction row as [|[k' v'] row IH]; [done|]. cbn.
  destruct (String.eqb k' key); cbn; [done|]. by rewrite IH.
Qed.

Lemma row_keys_insert row key val k :
  k ∈ row_keys (row_insert row key val) <-> k ∈ row_keys row \/ k = key.
Proof.
  unfold row_keys. induction row as [|[k' v'] row IH]; cbn.
  - rewrite list_elem_of_singleton, elem_of_nil. naive_solver.
  - destruct (JS.ranksBefore key k'); cbn; rewrite !elem_of_cons; [naive_solver|].
    rewrite IH. naive_solver.
Qed.

Lemma row_set_proto row val : row_set row "__proto__" val = row.
Proof. reflexivity. Qed.

(** The cases of an assignment under a key other than [__proto__]. *)
Lemma row_set_cases row key val :
  key <> "__proto__" ->
  ((key ∈ row_keys row) /\ row_set row key val = row_update row key val)
  \/ ((key ∉ row_keys row) /\ row_set row key val = row_insert row key val).
Proof.
  intros Hkey. unfold row_set.
  destruct (String.eqb_spec key "__proto__") as [?|_]; [done|].
  destruct (row_get row key) as [v|] eqn:Hget.
  - left. split; [|done]. apply row_get_is_Some. by eexists.
  - right. split; [|done]. by apply row_get_None.
Qed.

Lemma row_keys_set row key val k :
  k ∈ row_keys (row_set row key val)
  <-> k ∈ row_keys row \/ (k = key /\ key <> "__proto__").
Proof.
  destruct (decide (key = "__proto__")) as [->|Hkey].
  - rewrite row_set_proto. naive_solver.
  - destruct (row_set_cases row key val Hkey) as [[Hin ->]|[Hnot ->]].
    + rewrite row_keys_update. naive_solver.
    + rewrite row_keys_insert. naive_solver.
Qed.

Lemma row_get_update row key val k :
  key ∈ row_keys row ->
  row_get (row_update row key val) k
  = if decide (key = k) then Some val else row_get row k.
Proof.
  unfold row_keys. induction row as [|[k' v'] row IH]; cbn.
  - by intros ?%elem_of_nil.
  - intros Hin. destruct (String.eqb_spec k' key) as [->|Hne]; cbn.
    + destruct (String.eqb_spec key k); by case_decide.
    + apply elem_of_cons in Hin as [?|Hin]; [done|].
      destruct (String.eqb_spec k' k) as [->|Hne']; [by rewrite decide_False|by apply IH].
Qed.

Lemma row_get_insert row key val k :
  key ∉ row_keys row ->
  row_get (row_insert row key val) k
  = if decide (key = k) then Some val else row_get row k.
Proof.
  unfold row_keys. induction row as [|[k' v'] row IH]; cbn.
  - intros _. destruct (String.eqb_spec key k); by case_decide.
  - intros [Hne Hnot]%not_elem_of_cons. destruct (JS.ranksBefore key k'); cbn.
    + destruct (String.eqb_spec key k); by case_decide.
    + destruct (String.eqb_spec k' k) as [->|Hne']; [by rewrite decide_False|by apply IH].
Qed.

Lemma row_get_set row key val k :
  key <> "__proto__" ->
  row_get (row_set row key val) k
  = if decide (key = k) then Some val else row_get row k.
Proof.
  intros Hkey. destruct (row_set_cases row key val Hkey) as [[Hin ->]|[Hnot ->]].
  - by apply row_get_update.
  - by apply row_get_insert.
Qed.

(** An assignment changes what is read under its own key at most. *)
Lemma row_get_set_ne row key val k :
  key <> k -> row_get (row_set row key val) k = row_get row k.
Proof.
  intros Hne. destruct (decide (key = "__proto__")) as [->|Hkey]; [done|].
  rewrite row_get_set by done. by apply decide_False.
Qed.

Lemma row_update_length row key val : length (row_update row key val) = length row.
Proof.
  induction row as [|[k' v'] row IH]; [done|]. cbn.
  destruct (String.eqb k' key); cbn; [done|]. by rewrite IH.
Qed.

Lemma row_insert_length row key val : length (row_insert row key val) = S (length row).
Proof.
  induction row as [|[k' v'] row IH]; [done|]. cbn.
  destruct (JS.ranksBefore key k'); cbn; [done|]. by rewrite IH.
Qed.

Lemma row_set_length row key val :
  length (row_set row key val) <= S (length row).
Proof.
  unfold row_set. destruct (String.eqb key "__proto__"); [lia|].
  destruct (row_get row key).
  - rewrite row_update_length. lia.
  - by rewrite row_insert_length.
Qed.

Lemma row_update_entries row key val k v :
  (k, v) ∈ row_update row key val -> (k, v) ∈ row \/ (k = key /\ v = val).
Proof.
  induction row as [|[k' v'] row IH]; cbn; [by left|].
  destruct (String.eqb_spec k' key) as [->|Hne]; rewrite !elem_of_cons; naive_solver.
Qed.

Lemma row_insert_entries row key val k v :
  (k, v) ∈ row_insert row key val -> (k, v) ∈ row \/ (k = key /\ v = val).
Proof.
  induction row as [|[k' v'] row IH]; cbn.
  - rewrite list_elem_of_singleton. naive_solver.
  - destruct (JS.ranksBefore key k'); rewrite !elem_of_cons; naive_solver.
Qed.

Lemma row_set_entries row key val k v :
  (k, v) ∈ row_set row key val -> (k, v) ∈ row \/ (k = key /\ v = val).
Proof.
  unfold row_set. destruct (String.eqb key "__proto__"); [by left|].
  destruct (row_get row key).
  - apply row_update_entries.
  - apply row_insert_entries.
Qed.

(** The keys of a filled row are the keys it had and the headers
    other than [__proto__]. *)
Lemma fillRow_keys headers index values row k :
  k ∈ row_keys (fillRow headers index values row)
  <-> k ∈ row_keys row \/ (k ∈ headers /\ k <> "__proto__").
Proof.
  revert index row. induction headers as [|h hs IH]; intros index row; cbn.
  - rewrite elem_of_nil. naive_solver.
  - rewrite IH, row_keys_set, elem_of_cons. naive_solver.
Qed.

(** Headers other than [k] leave what is read under [k]. *)
Lemma fillRow_get_other headers index values row k :
  k ∉ headers -> row_get (fillRow headers index values row) k = row_get row k.
Proof.
  revert index row. induction headers as [|h hs IH]; intros index row Hk; [done|].
  apply not_elem_of_cons in Hk as [Hne Hk].
  cbn [fillRow]. rewrite IH by done. by apply row_get_set_ne.
Qed.

(** A header reads the value at the position of its last occurrence. *)
Lemma fillRow_get headers index values row i k :
  headers !! i = Some k ->
  k <> "__proto__" ->
  (forall j, i < j -> headers !! j <> Some k) ->
  row_get (fillRow headers index values row) k = Some (JS.orEmpty (values !! (index + i))).
Proof.
  intros Hi Hkey. revert index row i Hi.
  induction headers as [|h hs IH]; intros index row i Hi Hlast; [done|].
  cbn [fillRow]. destruct (decide (k ∈ hs)) as [Hin|Hnot].
  - apply list_elem_of_lookup in Hin as [j Hj].
    destruct i as [|i].
    + exfalso. apply (Hlast (S j)); [lia|done].
    + cbn in Hi. rewrite (IH (S index) _ i Hi).
      * f_equal. f_equal. f_equal. lia.
      * intros j' Hlt. apply (Hlast (S j')). lia.
  - destruct i as [|i]; [|cbn in Hi; by apply list_elem_of_lookup_2 in Hi].
    injection Hi as ->. rewrite Nat.add_0_r.
    rewrite fillRow_get_other by done. rewrite row_get_set by done. by rewrite decide_True.
Qed.

Lemma fillRow_length headers index values row :
  length (fillRow headers index values row) <= length row + length headers.
Proof.
  revert index row. induction headers as [|h hs IH]; intros index row; cbn; [lia|].
  etrans; [apply IH|]. pose proof (row_set_length row h (JS.orEmpty (values !! index))). lia.
Qed.

(** Every entry of a filled row was there before or was read at the
    position of one of the headers. *)
Lemma fillRow_entries headers index values row k v :
  (k, v) ∈ fillRow headers index values row ->
  (k, v) ∈ row
  \/ exists i, headers !! i = Some k /\ v = JS.orEmpty (values !! (index + i)).
Proof.
  revert index row. induction headers as [|h hs IH]; intros index row; cbn; [by left|].
  intros [Hin|(i & Hi & ->)]%IH.
  - apply row_set_entries in Hin as [Hin|[-> ->]]; [by left|].
    right. exists 0. by rewrite Nat.add_0_r.
  - right. exists (S i). split; [done|]. do 2 f_equal. lia.
Qed.

Lemma dropNull_elem {A} (l : list (option A)) (x : A) : x ∈ dropNull l <-> Some x ∈ l.
Proof.
  unfold dropNull. rewrite list_elem_of_omap. split.
  - intros (o & Hin & Ho). cbn in Ho. by subst.
  - intros Hin. by exists (Some x).
Qed.

(** C10 (amended): in a successful parse every row has the headers
    other than [__proto__], and nothing else, as its keys; a header
    [__proto__] gives no key.  Every row comes from one data line;
    under each of these headers it holds the field of that line at the
    position of the header (of its last occurrence, should a header
    repeat), the empty string when the line has no field there, and
    fields beyond the last header are stored nowhere: every entry of
    the row is read at the position of a header. *)
Theorem parseCsv_rows_match_headers text headers data :
  parseCsv text = Ok (headers, data) ->
  forall row, row ∈ data ->
    (forall k, k ∈ row_keys row <-> k ∈ headers /\ k <> "__proto__")
    /\ exists line, line ∈ tl (JS.splitLines (JS.trim text))
        /\ (forall i k, headers !! i = Some k ->
              k <> "__proto__" ->
              (forall j, i < j -> headers !! j <> Some k) ->
              row_get row k = Some (default "" (parseLine line !! i)))
        /\ (forall k v, (k, v) ∈ row ->
              exists i, headers !! i = Some k /\ v = default "" (parseLine line !! i))
        /\ length row <= length headers.
Proof.
  unfold parseCsv, csvLines. destruct (_ <? 2)%nat; [done|].
  intros [= <- <-] row Hrow.
  apply dropNull_elem, list_elem_of_fmap in Hrow as (line & Hline & Hin).
  unfold lineToRow in Hline. destruct (negb _); [done|]. injection Hline as ->.
  split.
  - intros k. rewrite fillRow_keys. unfold row_keys. cbn. rewrite elem_of_nil. naive_solver.
  - exists line. split; [done|]. split; [|split].
    + intros i k Hi Hkey Hlast. rewrite <- orEmpty_default.
      by apply (fillRow_get _ 0 _ _ i).
    + intros k v [Hnil|(i & Hi & ->)]%fillRow_entries; [by apply elem_of_nil in Hnil|].
      exists i. by rewrite <- orEmpty_default.
    + apply (fillRow_length _ 0 _ []).
Qed.

(** A line with a field too few and a line with a field too many. *)
Lemma parseCsv_rows_match_headers_witness :
  parseCsv ("a,b" +:+ String JS.LF ("1" +:+ String JS.LF "2,3,4"))
  = Ok (["a"; "b"], [[("a", "1"); ("b", "")]; [("a", "2"); ("b", "3")]])
  /\ forall k, k ∈ row_keys [("a", "1"); ("b", "")]
               <-> k ∈ ["a"; "b"] /\ k <> "__proto__".
Proof.
  split; [reflexivity|].
  apply (parseCsv_rows_match_headers
           ("a,b" +:+ String JS.LF ("1" +:+ String JS.LF "2,3,4"))
           ["a"; "b"] [[("a", "1"); ("b", "")]; [("a", "2"); ("b", "3")]] eq_refl).
  apply elem_of_cons. by left.
Defined.

(** C10 (as stated) fails: the text has the headers [__proto__] and
    [b], and its row has the key [b] alone. *)
Lemma proto_header_gives_no_key :
  parseCsv Sample.protoHeader = Ok (["__proto__"; "b"], [[("b", "y")]])
  /\ ~ (forall k, k ∈ row_keys [("b", "y")] <-> k ∈ ["__proto__"; "b"]).
Proof.
  split; [reflexivity|]. intros Hkeys.
  assert (Hin : "__proto__" ∈ row_keys [("b", "y")])
    by (apply Hkeys, elem_of_cons; by left).
  by apply list_elem_of_singleton in Hin.
Qed.

(** ** Round trip through the row codec and the parser *)

Lemma append_cons c s t : String c s +:+ t = String c (s +:+ t).
Proof. reflexivity. Qed.

Lemma append_nil_l s : "" +:+ s = s.
Proof. reflexivity. Qed.

Lemma append_nil_r s : s +:+ "" = s.
Proof. induction s as [|c s IH]; [done|]. by rewrite append_cons, IH. Qed.

Lemma append_assoc s t u : (s +:+ t) +:+ u = s +:+ (t +:+ u).
Proof. induction s as [|c s IH]; [done|]. by rewrite !append_cons, IH. Qed.

Lemma append_snoc s c t : (s +:+ String c "") +:+ t = s +:+ String c t.
Proof. by rewrite append_assoc. Qed.

(** *** Lines *)

Lemma lineFree_app s t : lineFree (s +:+ t) = lineFree s && lineFree t.
Proof.
  induction s as [|c s IH]; [done|]. rewrite append_cons. cbn [lineFree].
  rewrite IH. by rewrite !andb_assoc.
Qed.

Lemma splitLines_nonempty s : JS.splitLines s <> [].
Proof.
  destruct s as [|c s]; [done|]. cbn [JS.splitLines].
  destruct (Ascii.eqb c JS.CR).
  - destruct s as [|d s]; [done|]. by destruct (Ascii.eqb d JS.LF).
  - destruct (Ascii.eqb c JS.LF); [done|]. by destruct (JS.splitLines s).
Qed.

Lemma splitLines_app l rest :
  lineFree l = true ->
  JS.splitLines (l +:+ String JS.LF rest) = l :: JS.splitLines rest.
Proof.
  induction l as [|c l IH]; intros Hfree.
  - done.
  - cbn [lineFree] in Hfree.
    apply andb_true_iff in Hfree as [[Hcr Hlf]%andb_true_iff Hfree].
    apply negb_true_iff in Hcr, Hlf.
    rewrite append_cons. cbn [JS.splitLines]. rewrite Hcr, Hlf, IH by done. done.
Qed.

Lemma splitLines_lineFree l : lineFree l = true -> JS.splitLines l = [l].
Proof.
  induction l as [|c l IH]; intros Hfree; [done|].
  cbn [lineFree] in Hfree.
  apply andb_true_iff in Hfree as [[Hcr Hlf]%andb_true_iff Hfree].
  apply negb_true_iff in Hcr, Hlf.
  cbn [JS.splitLines]. rewrite Hcr, Hlf, IH by done. done.
Qed.

Lemma splitLines_join ls :
  ls <> [] -> Forall (fun l => lineFree l = true) ls ->
  JS.splitLines (JS.join (String JS.LF "") ls) = ls.
Proof.
  induction ls as [|l ls IH]; [done|]. intros _ Hfree.
  apply Forall_cons in Hfree as [Hl Hls].
  destruct ls as [|l' ls]; [by apply splitLines_lineFree|].
  change (JS.join (String JS.LF "") (l :: l' :: ls))
    with (l +:+ String JS.LF (JS.join (String JS.LF "") (l' :: ls))).
  rewrite splitLines_app by done. by rewrite IH.
Qed.

(** *** Fields *)

Lemma parseLine_from_bare s rest result field :
  JS.needsQuoting s = false ->
  parseLine_from (s +:+ rest) result field false
  = parseLine_from rest result (field +:+ s) false.
Proof.
  revert field. induction s as [|c s IH]; intros field Hbare.
  - by rewrite append_nil_r.
  - cbn [JS.needsQuoting] in Hbare.
    apply orb_false_iff in Hbare as [[[Hq Hc]%orb_false_iff _]%orb_false_iff Hbare].
    rewrite append_cons. cbn [parseLine_from]. rewrite Hq, Hc, IH by done.
    by rewrite append_snoc.
Qed.

(** Inside quotes, the doubled text of [v] and the closing quote read
    back as [v], provided no quote follows the closing one. *)
Lemma parseLine_from_quoted v rest result field :
  (forall rest', rest <> String JS.QUOTE rest') ->
  parseLine_from (JS.doubleQuotes v +:+ String JS.QUOTE rest) result field true
  = parseLine_from rest result (field +:+ v) false.
Proof.
  intros Hrest. revert field. induction v as [|c v IH]; intros field.
  - rewrite append_nil_r. cbn [JS.doubleQuotes]. rewrite append_nil_l.
    cbn [parseLine_from]. rewrite Ascii.eqb_refl.
    destruct rest as [|d rest']; [done|].
    destruct (Ascii.eqb_spec d JS.QUOTE) as [->|_]; [by destruct (Hrest rest')|done].
  - cbn [JS.doubleQuotes]. destruct (Ascii.eqb_spec c JS.QUOTE) as [->|Hne].
    + rewrite !append_cons. cbn [parseLine_from]. rewrite !Ascii.eqb_refl.
      rewrite IH. by rewrite append_snoc.
    + rewrite append_cons. cbn [parseLine_from].
      apply Ascii.eqb_neq in Hne. rewrite Hne, IH. by rewrite append_snoc.
Qed.

Lemma parseLine_from_field v rest result field :
  (forall rest', rest <> String JS.QUOTE rest') ->
  parseLine_from (escapeCsvField v +:+ rest) result field false
  = parseLine_from rest result (field +:+ v) false.
Proof.
  intros Hrest. unfold escapeCsvField.
  destruct (JS.needsQuoting v) eqn:Hq; [|by apply parseLine_from_bare].
  rewrite append_cons, append_assoc, append_cons, append_nil_l.
  cbn [parseLine_from]. change (Ascii.eqb JS.QUOTE JS.COMMA) with false.
  rewrite Ascii.eqb_refl. by apply parseLine_from_quoted.
Qed.

Lemma parseLine_from_join vs result :
  vs <> [] ->
  parseLine_from (JS.join "," (map escapeCsvField vs)) result "" false = result ++ vs.
Proof.
  revert result. induction vs as [|v vs IH]; [done|]. intros result _.
  destruct vs as [|v' vs].
  - cbn [map JS.join]. rewrite <- (append_nil_r (escapeCsvField v)).
    by rewrite parseLine_from_field.
  - change (JS.join "," (map escapeCsvField (v :: v' :: vs)))
      with (escapeCsvField v +:+ String JS.COMMA (JS.join "," (map escapeCsvField (v' :: vs)))).
    rewrite parseLine_from_field by done.
    cbn [parseLine_from]. rewrite Ascii.eqb_refl, IH by done.
    by rewrite <- app_assoc.
Qed.

(** A line of escaped fields parses back to the fields. *)
Lemma parseLine_join_escaped vs :
  vs <> [] -> parseLine (JS.join "," (map escapeCsvField vs)) = vs.
Proof. intros Hvs. unfold parseLine. by rewrite parseLine_from_join. Qed.

(** The quoting example of the specification. *)
Example escape_he_said :
  escapeCsvField ("He said " +:+ String JS.QUOTE ("hi" +:+ String JS.QUOTE ", ok"))
  = String JS.QUOTE
      ("He said " +:+ String JS.QUOTE (String JS.QUOTE
         ("hi" +:+ String JS.QUOTE (String JS.QUOTE (", ok" +:+ String JS.QUOTE "")))))
  /\ parseLine (escapeCsvField
                  ("He said " +:+ String JS.QUOTE ("hi" +:+ String JS.QUOTE ", ok")))
     = ["He said " +:+ String JS.QUOTE ("hi" +:+ String JS.QUOTE ", ok")].
Proof. by split. Qed.

Lemma lineFree_doubleQuotes v : lineFree (JS.doubleQuotes v) = lineFree v.
Proof.
  induction v as [|c v IH]; [done|]. cbn [JS.doubleQuotes].
  destruct (Ascii.eqb_spec c JS.QUOTE) as [->|_]; cbn [lineFree]; by rewrite IH.
Qed.

Lemma lineFree_escapeCsvField v : lineFree (escapeCsvField v) = lineFree v.
Proof.
  unfold escapeCsvField. destruct (JS.needsQuoting v); [|done].
  cbn [lineFree]. rewrite lineFree_app, lineFree_doubleQuotes.
  by destruct (lineFree v).
Qed.

Lemma lineFree_join_comma fs :
  Forall (fun f => lineFree f = true) fs -> lineFree (JS.join "," fs) = true.
Proof.
  induction fs as [|f fs IH]; [done|]. intros [Hf Hfs]%Forall_cons.
  destruct fs as [|f' fs]; [done|].
  change (JS.join "," (f :: f' :: fs)) with (f +:+ String JS.COMMA (JS.join "," (f' :: fs))).
  rewrite lineFree_app, Hf. cbn [lineFree]. by rewrite IH.
Qed.

(** *** Blank lines *)

Lemma trimEnd_empty s : JS.trimEnd s = "" <-> hasInk s = false.
Proof.
  induction s as [|c s IH]; [done|]. cbn [JS.trimEnd hasInk].
  destruct (JS.trimEnd s) as [|d t] eqn:Hend.
  - destruct (JS.isWhiteSpace c); cbn; [tauto|]. split; [done|by intros ?].
  - split; [done|]. intros [_ Hs]%orb_false_iff. by apply IH in Hs.
Qed.

Lemma hasInk_trimStart s : hasInk (JS.trimStart s) = hasInk s.
Proof.
  induction s as [|c s IH]; [done|]. cbn [JS.trimStart hasInk].
  destruct (JS.isWhiteSpace c) eqn:Hws; [done|]. cbn [hasInk]. by rewrite Hws.
Qed.

(** The test that skips a data line: the line has a character that is
    not white space. *)
Lemma truthy_trim line : JS.truthy (JS.trim line) = hasInk line.
Proof.
  unfold JS.truthy, JS.trim. rewrite <- (hasInk_trimStart line).
  destruct (String.eqb_spec (JS.trimEnd (JS.trimStart line)) "") as [Heq|Hne]; cbn.
  - apply trimEnd_empty in Heq. by rewrite Heq.
  - destruct (hasInk (JS.trimStart line)) eqn:Hink; [done|].
    by apply trimEnd_empty in Hink.
Qed.

Lemma hasInk_app s t : hasInk (s +:+ t) = hasInk s || hasInk t.
Proof.
  induction s as [|c s IH]; [done|]. rewrite append_cons. cbn [hasInk].
  by rewrite IH, orb_assoc.
Qed.

Lemma hasInk_escapeCsvField v : hasInk v = true -> hasInk (escapeCsvField v) = true.
Proof. intros Hv. unfold escapeCsvField. by destruct (JS.needsQuoting v). Qed.

Lemma hasInk_join_comma fs :
  2 <= length fs \/ Exists (fun f => hasInk f = true) fs ->
  hasInk (JS.join "," fs) = true.
Proof.
  induction fs as [|f fs IH]; intros Hfs.
  - destruct Hfs as [Hlen|Hex]; [cbn in Hlen; lia|by apply Exists_nil in Hex].
  - destruct fs as [|f' fs].
    + destruct Hfs as [Hlen|Hex]; [cbn in Hlen; lia|].
      apply Exists_cons in Hex as [Hf|Hex]; [done|by apply Exists_nil in Hex].
    + change (JS.join "," (f :: f' :: fs))
        with (f +:+ String JS.COMMA (JS.join "," (f' :: fs))).
      rewrite hasInk_app. cbn [hasInk]. by rewrite orb_true_r.
Qed.

(** *** The order of the keys *)

Lemma ranksBefore_later key k y :
  JS.ranksBefore key k = true -> JS.ranksBefore y k = false -> JS.ranksBefore y key = false.
Proof.
  unfold JS.ranksBefore.
  destruct (JS.arrayIndex key) as [i|], (JS.arrayIndex k) as [j|],
    (JS.arrayIndex y) as [m|]; try done.
  rewrite N.ltb_lt, !N.ltb_ge. lia.
Qed.

Lemma ranksBefore_asym key k :
  JS.ranksBefore key k = true -> JS.ranksBefore k key = false.
Proof.
  unfold JS.ranksBefore.
  destruct (JS.arrayIndex key) as [i|], (JS.arrayIndex k) as [j|]; try done.
  rewrite N.ltb_lt, N.ltb_ge. lia.
Qed.

Lemma keyOrdered_cons k rest :
  keyOrdered (k :: rest) = true
  <-> k <> "__proto__"
      /\ (forall y, y ∈ rest -> JS.ranksBefore y k = false)
      /\ keyOrdered rest = true.
Proof.
  cbn [keyOrdered]. rewrite !andb_true_iff, negb_true_iff, forallb_forall.
  split.
  - intros [[Hk Hrest] Hord]. split; [by apply String.eqb_neq|]. split; [|done].
    intros y Hy%list_elem_of_In. by apply negb_true_iff, Hrest.
  - intros (Hk & Hrest & Hord). split; [split|done]; [by apply String.eqb_neq|].
    intros y Hy%list_elem_of_In. by apply negb_true_iff, Hrest.
Qed.

(** What a list in key order says of its two parts. *)
Lemma keyOrdered_app a b :
  keyOrdered (a ++ b) = true ->
  keyOrdered a = true /\ keyOrdered b = true
  /\ forall x y, x ∈ a -> y ∈ b -> x <> "__proto__" /\ JS.ranksBefore y x = false.
Proof.
  induction a as [|k a IH]; cbn [app].
  - intros Hb. split; [done|]. split; [done|]. by intros x y ?%elem_of_nil.
  - intros (Hk & Hrest & (Ha & Hb & Hab)%IH)%keyOrdered_cons. split; [|split; [done|]].
    + apply keyOrdered_cons. split; [done|]. split; [|done].
      intros y Hy. apply Hrest. apply elem_of_app. by left.
    + intros x y [->|Hx]%elem_of_cons Hy; [|by apply Hab]. split; [done|].
      apply Hrest. apply elem_of_app. by right.
Qed.

Lemma row_insert_ordered (row : Row) key val :
  key <> "__proto__" ->
  keyOrdered (row_keys row) = true ->
  keyOrdered (row_keys (row_insert row key val)) = true.
Proof.
  intros Hkey. unfold row_keys. induction row as [|[k v] row IH]; cbn [row_insert].
  - intros _. apply keyOrdered_cons. split; [done|]. split; [|done]. by intros y ?%elem_of_nil.
  - cbn [fmap list_fmap fst]. intros (Hk & Hrest & Hord)%keyOrdered_cons.
    destruct (JS.ranksBefore key k) eqn:Hrank; cbn [fmap list_fmap fst].
    + apply keyOrdered_cons. split; [done|]. split; [|by apply keyOrdered_cons].
      intros y [->|Hy]%elem_of_cons; [by apply ranksBefore_asym|].
      eapply ranksBefore_later; [done|]. by apply Hrest.
    + apply keyOrdered_cons. split; [done|]. split; [|by apply IH].
      intros y [Hy| ->]%(row_keys_insert row key val y); [by apply Hrest|done].
Qed.

(** An assignment leaves the keys of a row in key order. *)
Lemma row_set_ordered (row : Row) key val :
  keyOrdered (row_keys row) = true -> keyOrdered (row_keys (row_set row key val)) = true.
Proof.
  intros Hord. destruct (decide (key = "__proto__")) as [->|Hkey]; [done|].
  destruct (row_set_cases row key val Hkey) as [[_ ->]|[_ ->]].
  - by rewrite row_keys_update.
  - by apply row_insert_ordered.
Qed.

Lemma fillRow_ordered headers index values (row : Row) :
  keyOrdered (row_keys row) = true ->
  keyOrdered (row_keys (fillRow headers index values row)) = true.
Proof.
  revert index row. induction headers as [|h hs IH]; intros index row Hrow; [done|].
  cbn [fillRow]. by apply IH, row_set_ordered.
Qed.

(** *** Rows *)


(** Reading a row under its own keys, in their order, gives its values. *)
Lemma row_values_by_keys (row : Row) :
  NoDup row.*1 -> map (fun h => JS.String_ (row_get row h)) row.*1 = row.*2.
Proof.
  induction row as [|[k v] row IH]; [done|]. cbn [fmap list_fmap fst snd map row_get].
  intros [Hk Hrow]%NoDup_cons. rewrite String.eqb_refl. cbn [JS.String_]. f_equal.
  rewrite <- IH by done. apply map_ext_in. intros h Hh%list_elem_of_In.
  destruct (String.eqb_spec k h) as [->|_]; [done|done].
Qed.

Lemma row_insert_last (row : Row) k v :
  (forall k', k' ∈ row.*1 -> JS.ranksBefore k k' = false) ->
  row_insert row k v = row ++ [(k, v)].
Proof.
  induction row as [|[k' v'] row IH]; [done|]. cbn. intros Hrank.
  rewrite (Hrank k') by (by left). rewrite IH; [done|].
  intros y Hy. apply Hrank. by right.
Qed.

(** A new key that is no [__proto__] and ranks before none of the keys
    of the row is added at the end. *)
Lemma row_set_fresh (row : Row) k v :
  k <> "__proto__" ->
  k ∉ row.*1 ->
  (forall k', k' ∈ row.*1 -> JS.ranksBefore k k' = false) ->
  row_set row k v = row ++ [(k, v)].
Proof.
  intros Hk Hfresh Hrank.
  destruct (row_set_cases row k v Hk) as [[Hin _]|[_ ->]]; [done|].
  by apply row_insert_last.
Qed.

Lemma fillRow_rebuilds (done todo : Row) :
  NoDup (done ++ todo).*1 ->
  keyOrdered (done ++ todo).*1 = true ->
  fillRow todo.*1 (length done) (done ++ todo).*2 done = done ++ todo.
Proof.
  revert done. induction todo as [|[k v] todo IH]; intros done Hnodup Hord.
  - by rewrite app_nil_r.
  - cbn [fmap list_fmap fst fillRow].
    assert (Hlook : (done ++ (k, v) :: todo).*2 !! length done = Some v).
    { rewrite fmap_app, lookup_app_r by (by rewrite length_fmap).
      by rewrite length_fmap, Nat.sub_diag. }
    rewrite Hlook, orEmpty_default. cbn [default].
    rewrite fmap_app in Hnodup, Hord.
    pose proof Hord as (_ & (Hk & _ & _)%keyOrdered_cons & Hbefore)%keyOrdered_app.
    pose proof Hnodup as (Hdone & Hdisj & Htodo)%NoDup_app.
    rewrite row_set_fresh.
    + replace (S (length done)) with (length (done ++ [(k, v)]))
        by (rewrite length_app; cbn; lia).
      replace (done ++ (k, v) :: todo) with ((done ++ [(k, v)]) ++ todo)
        by (by rewrite <- app_assoc).
      apply IH; rewrite <- app_assoc; cbn; by rewrite fmap_app.
    + done.
    + intros Hin. apply (Hdisj k Hin). by left.
    + intros k' Hk'. apply (Hbefore k' k); [done|by left].
Qed.

(** A row with distinct keys in key order is rebuilt from its keys and
    values. *)
Lemma fillRow_row (row : Row) :
  NoDup row.*1 -> keyOrdered row.*1 = true -> fillRow row.*1 0 row.*2 [] = row.
Proof. intros Hnodup Hord. by apply (fillRow_rebuilds [] row). Qed.

(** *** The round trip *)

Lemma escapeCsvField_plain headers :
  Forall (fun h => plainHeader h = true) headers -> map escapeCsvField headers = headers.
Proof.
  induction 1 as [|h hs Hh _ IH]; [done|]. cbn [map]. rewrite IH. f_equal.
  unfold plainHeader in Hh. apply andb_true_iff in Hh as [Hq%negb_true_iff _].
  unfold escapeCsvField. by rewrite Hq.
Qed.

Lemma plainHeader_lineFree headers :
  Forall (fun h => plainHeader h = true) headers ->
  Forall (fun h => lineFree h = true) headers.
Proof.
  intros Hplain. eapply Forall_impl; [exact Hplain|].
  intros h Hh. unfold plainHeader in Hh.
  by apply andb_true_iff in Hh as [_ Hh].
Qed.

(** The line the codec writes for a row whose keys are the headers. *)
Lemma serialize_row_line headers (row : Row) :
  NoDup headers -> row_keys row = headers ->
  JS.join "," (map (fun h => escapeCsvField (JS.String_ (row_get row h))) headers)
  = JS.join "," (map escapeCsvField row.*2).
Proof.
  intros Hnodup Hkeys. unfold row_keys in Hkeys. subst headers.
  f_equal. rewrite <- (row_values_by_keys row Hnodup). symmetry. apply map_map.
Qed.

Lemma lineToRow_line headers (row : Row) :
  headers <> [] -> NoDup headers -> keyOrdered headers = true -> row_keys row = headers ->
  2 <= length row \/ Exists (fun v => hasInk v = true) row.*2 ->
  lineToRow headers (JS.join "," (map escapeCsvField row.*2)) = Some row.
Proof.
  intros Hne Hnodup Hord Hkeys Hink. unfold row_keys in Hkeys. subst headers.
  unfold lineToRow. rewrite truthy_trim, hasInk_join_comma.
  - cbn [negb]. rewrite parseLine_join_escaped by (by destruct row).
    by rewrite fillRow_row.
  - destruct Hink as [Hlen|Hex].
    + left. by rewrite length_map, length_fmap.
    + right. apply Exists_exists in Hex as (v & Hv & Hink).
      apply Exists_exists. exists (escapeCsvField v).
      split; [|by apply hasInk_escapeCsvField].
      apply list_elem_of_In, in_map, list_elem_of_In, Hv.
Qed.

(** C2 (amended): parsing the serialized text returns the headers and
    the rows, provided that the header list is not empty and has no
    repetition, that no header holds a comma, a double quote, a
    carriage return or a line feed, that there is at least one row,
    that every row is a row object as the parser builds them (its keys
    stand in the order in which an object lists them, none of them
    being [__proto__]) and has exactly the headers, in their order, as
    keys, that no value holds a carriage return or a line feed, that
    no row of a single column has a value of white space only, and
    that the serialized text neither begins nor ends with white space.
    Commas and double quotes in values are carried through. *)
Theorem parse_serialize_roundtrip headers (rows : list Row) :
  headers <> [] ->
  NoDup headers ->
  Forall (fun h => plainHeader h = true) headers ->
  rows <> [] ->
  Forall (fun row : Row => keyOrdered (row_keys row) = true) rows ->
  Forall (fun row : Row => row_keys row = headers) rows ->
  Forall (fun row : Row => Forall (fun v => lineFree v = true) row.*2) rows ->
  Forall (fun row : Row => 2 <= length row \/ Exists (fun v => hasInk v = true) row.*2) rows ->
  JS.trim (serialize headers rows) = serialize headers rows ->
  parseCsv (serialize headers rows) = Ok (headers, rows).
Proof.
  intros Hne Hnodup Hplain Hrows Hobj Hkeys Hfree Hink Htrim.
  assert (Hord : keyOrdered headers = true).
  { destruct rows as [|row rows]; [done|].
    apply Forall_cons in Hobj as [Hobj _]. apply Forall_cons in Hkeys as [Hkeys _].
    by rewrite <- Hkeys. }
  assert (Hhead : parseLine (JS.join "," headers) = headers).
  { transitivity (parseLine (JS.join "," (map escapeCsvField headers))).
    - by rewrite escapeCsvField_plain.
    - by apply parseLine_join_escaped. }
  assert (Hsplit : JS.splitLines (serialize headers rows)
                   = JS.join "," headers
                     :: map (fun row : Row => JS.join "," (map escapeCsvField row.*2)) rows).
  { unfold serialize.
    replace (map (fun row : Row =>
                    JS.join "," (map (fun h => escapeCsvField (JS.String_ (row_get row h)))
                                     headers)) rows)
      with (map (fun row : Row => JS.join "," (map escapeCsvField row.*2)) rows).
    - apply splitLines_join; [done|]. apply Forall_cons. split.
      + by apply lineFree_join_comma, plainHeader_lineFree.
      + apply Forall_forall. intros line (row & -> & Hrow)%list_elem_of_fmap.
        apply lineFree_join_comma, Forall_forall.
        intros f (v & -> & Hv)%list_elem_of_fmap. rewrite lineFree_escapeCsvField.
        eapply Forall_forall in Hfree; [|done]. by eapply Forall_forall in Hfree.
    - apply map_ext_in. intros row Hrow%list_elem_of_In. symmetry.
      apply serialize_row_line; [done|]. by eapply Forall_forall in Hkeys. }
  unfold parseCsv, csvLines. rewrite Htrim, Hsplit.
  cbn [hd tl]. rewrite Hhead.
  destruct rows as [|row rows]; [done|]. cbn [length map Nat.ltb Nat.leb].
  do 2 f_equal. clear Hrows Htrim Hsplit Hobj.
  change (dropNull (map (lineToRow headers)
                        (map (fun row : Row => JS.join "," (map escapeCsvField row.*2))
                             (row :: rows))) = row :: rows).
  induction (row :: rows) as [|r rs IH]; [done|].
  apply Forall_cons in Hkeys as [Hk Hkeys]. apply Forall_cons in Hfree as [_ Hfree].
  apply Forall_cons in Hink as [Hi Hink].
  cbn [map]. unfold dropNull. cbn [omap list_omap].
  rewrite lineToRow_line by done. cbn. f_equal. by apply IH.
Qed.

(** A value with a comma and double quotes, and an empty value, come
    back as they were. *)
Lemma parse_serialize_roundtrip_witness :
  parseCsv (serialize ["id"; "text"] Sample.quotedRows)
  = Ok (["id"; "text"], Sample.quotedRows).
Proof.
  apply parse_serialize_roundtrip.
  - done.
  - by apply (bool_decide_unpack (NoDup ["id"; "text"])).
  - by repeat constructor.
  - done.
  - by repeat constructor.
  - by repeat constructor.
  - by repeat constructor.
  - repeat constructor; cbn; lia.
  - reflexivity.
Defined.

(** C2 (as stated) fails: a value with a line feed inside is written
    between quotes, and the parser, which cuts the text into lines
    before it reads fields, returns two rows for it. *)
Lemma embedded_newline_breaks_roundtrip :
  parseCsv (serialize ["a"] Sample.twoLineValue)
  = Ok (["a"], [[("a", "x")]; [("a", "y")]])
  /\ parseCsv (serialize ["a"] Sample.twoLineValue) <> Ok (["a"], Sample.twoLineValue).
Proof. split; [reflexivity|]. intros H. discriminate H. Qed.

(** The condition on the keys is needed: a list of entries that names
    the array index 2 before the array index 1 is no row object, and
    the parser returns the row that lists 1 first. *)
Example unordered_entries_are_no_row :
  keyOrdered ["2"; "1"] = false
  /\ parseCsv (serialize ["2"; "1"] [[("2", "x"); ("1", "y")]])
     = Ok (["2"; "1"], [[("1", "y"); ("2", "x")]]).
Proof. by split. Qed.

(** *** When the serialized text is its own trimming *)

Lemma trim_stable s : startsInk s = true -> endsInk s = true -> JS.trim s = s.
Proof.
  intros Hstart Hend. unfold JS.trim.
  assert (Hs : JS.trimStart s = s).
  { destruct s as [|c s]; [done|]. cbn in *. by apply negb_true_iff in Hstart as ->. }
  rewrite Hs. clear Hs Hstart. induction s as [|c s IH]; [done|].
  cbn [JS.trimEnd]. destruct s as [|d s].
  - cbn in *. by apply negb_true_iff in Hend as ->.
  - rewrite IH by done. done.
Qed.

Lemma startsInk_app s t : startsInk s = true -> startsInk (s +:+ t) = true.
Proof. by destruct s. Qed.

Lemma endsInk_app s t : endsInk t = true -> endsInk (s +:+ t) = true.
Proof.
  intros Ht. induction s as [|c s IH]; [done|]. rewrite append_cons.
  cbn [endsInk]. by destruct (s +:+ t).
Qed.

Lemma join_starts sep p ps : exists t, JS.join sep (p :: ps) = p +:+ t.
Proof.
  destruct ps as [|p' ps]; [exists ""; by rewrite append_nil_r|].
  by exists (sep +:+ JS.join sep (p' :: ps)).
Qed.

Lemma join_ends sep ps p : exists t, JS.join sep (ps ++ [p]) = t +:+ p.
Proof.
  induction ps as [|q ps [t IH]]; [by exists ""|].
  exists (q +:+ sep +:+ t). cbn [app JS.join]. rewrite IH.
  destruct (ps ++ [p]) eqn:Hps; [by destruct ps|]. by rewrite !append_assoc.
Qed.

Lemma endsInk_escapeCsvField v :
  JS.needsQuoting v = true \/ endsInk v = true -> endsInk (escapeCsvField v) = true.
Proof.
  unfold escapeCsvField. destruct (JS.needsQuoting v); [|by intros [?|?]].
  intros _. by apply (endsInk_app (String JS.QUOTE (JS.doubleQuotes v))).
Qed.

(** The serialized text is its own trimming when the first header
    begins with a character that is not white space and the last field
    of the last line is quoted or ends with such a character. *)
Lemma serialize_trimmed h headers (rows : list Row) (row : Row) k :
  startsInk h = true ->
  last (h :: headers) = Some k ->
  last rows = Some row ->
  JS.needsQuoting (JS.String_ (row_get row k)) = true
  \/ endsInk (JS.String_ (row_get row k)) = true ->
  JS.trim (serialize (h :: headers) rows) = serialize (h :: headers) rows.
Proof.
  intros Hstart Hk Hrow Hend. apply trim_stable; unfold serialize.
  - destruct (join_starts (String JS.LF "") (JS.join "," (h :: headers))
                (map (fun row : Row =>
                        JS.join "," (map (fun h => escapeCsvField (JS.String_ (row_get row h)))
                                         (h :: headers))) rows)) as [t ->].
    destruct (join_starts "," h headers) as [t' ->].
    rewrite append_assoc. by apply startsInk_app.
  - apply last_Some in Hk as [hs Hk]. apply last_Some in Hrow as [rs ->].
    rewrite Hk, map_app. cbn [map]. rewrite app_comm_cons.
    destruct (join_ends (String JS.LF "")
                (JS.join "," (hs ++ [k])
                 :: map (fun row : Row =>
                           JS.join "," (map (fun h => escapeCsvField (JS.String_ (row_get row h)))
                                            (hs ++ [k]))) rs)
                (JS.join "," (map (fun h => escapeCsvField (JS.String_ (row_get row h)))
                                  (hs ++ [k])))) as [t ->].
    apply endsInk_app. rewrite map_app. cbn [map].
    destruct (join_ends "," (map (fun h => escapeCsvField (JS.String_ (row_get row h))) hs)
                (escapeCsvField (JS.String_ (row_get row k)))) as [t' ->].
    by apply endsInk_app, endsInk_escapeCsvField.
Qed.

(** * Further properties of the parser and the codec *)

(** X1: whatever the fields are (commas, double quotes, line breaks
    included), the line made of the escaped fields joined by commas is
    read back by [parseLine] as exactly these fields. *)
Theorem escaped_fields_parse_back (fields : list string) :
  fields <> [] ->
  parseLine (JS.join "," (map escapeCsvField fields)) = fields.
Proof. intros Hne. unfold parseLine. by rewrite parseLine_from_join. Qed.

Lemma escaped_fields_parse_back_witness :
  parseLine (JS.join "," (map escapeCsvField
               ["a,b"; String JS.QUOTE "q"; ""; String "x" (String JS.LF "y")]))
  = ["a,b"; String JS.QUOTE "q"; ""; String "x" (String JS.LF "y")].
Proof. by apply escaped_fields_parse_back. Defined.

Lemma splitChar_nonempty c s : JS.splitChar c s <> [].
Proof.
  destruct s as [|d s]; [done|]. cbn [JS.splitChar].
  destruct (Ascii.eqb d c); [done|]. by destruct (JS.splitChar c s).
Qed.

Lemma parseLine_from_unquoted line result field :
  JS.includesChar JS.QUOTE line = false ->
  parseLine_from line result field false
  = result ++ match JS.splitChar JS.COMMA line with
              | f :: fs => (field +:+ f) :: fs
              | [] => [field]
              end.
Proof.
  revert result field. induction line as [|c line IH]; intros result field Hq.
  - cbn. by rewrite append_nil_r.
  - cbn [JS.includesChar] in Hq. apply orb_false_iff in Hq as [Hc Hq].
    cbn [parseLine_from JS.splitChar]. rewrite Hc.
    destruct (Ascii.eqb c JS.COMMA).
    + rewrite IH by done. rewrite append_nil_r, <- app_assoc. cbn [app]. f_equal. f_equal.
      pose proof (splitChar_nonempty JS.COMMA line) as Hne.
      by destruct (JS.splitChar JS.COMMA line).
    + rewrite IH by done. f_equal.
      pose proof (splitChar_nonempty JS.COMMA line) as Hne.
      destruct (JS.splitChar JS.COMMA line) as [|f fs]; [done|].
      by rewrite append_snoc.
Qed.

(** X2: on a line without a double quote the scanner does what a plain
    split at every comma does. *)
Theorem parseLine_unquoted_is_split line :
  JS.includesChar JS.QUOTE line = false ->
  parseLine line = JS.splitChar JS.COMMA line.
Proof.
  intros Hq. unfold parseLine. rewrite parseLine_from_unquoted by done.
  pose proof (splitChar_nonempty JS.COMMA line) as Hne.
  by destruct (JS.splitChar JS.COMMA line).
Qed.

Lemma parseLine_unquoted_is_split_witness :
  parseLine "1,,two words," = ["1"; ""; "two words"; ""].
Proof. by rewrite parseLine_unquoted_is_split. Defined.

(** *** Line terminators *)

Lemma splitLines_app_crlf l rest :
  lineFree l = true ->
  JS.splitLines (l +:+ String JS.CR (String JS.LF rest)) = l :: JS.splitLines rest.
Proof.
  induction l as [|c l IH]; intros Hfree; [done|].
  cbn [lineFree] in Hfree.
  apply andb_true_iff in Hfree as [[Hcr Hlf]%andb_true_iff Hfree].
  apply negb_true_iff in Hcr, Hlf.
  rewrite append_cons. cbn [JS.splitLines]. rewrite Hcr, Hlf, IH by done. done.
Qed.

Lemma splitLines_app_cr l rest :
  lineFree l = true ->
  (forall rest', rest <> String JS.LF rest') ->
  JS.splitLines (l +:+ String JS.CR rest) = l :: JS.splitLines rest.
Proof.
  intros Hfree Hrest. induction l as [|c l IH].
  - rewrite append_nil_l. cbn [JS.splitLines]. rewrite Ascii.eqb_refl.
    destruct rest as [|d rest']; [done|].
    destruct (Ascii.eqb_spec d JS.LF) as [->|_]; [by destruct (Hrest rest')|done].
  - cbn [lineFree] in Hfree.
    apply andb_true_iff in Hfree as [[Hcr Hlf]%andb_true_iff Hfree].
    apply negb_true_iff in Hcr, Hlf.
    rewrite append_cons. cbn [JS.splitLines]. rewrite Hcr, Hlf, IH by done. done.
Qed.

Lemma join_cr_no_leading_lf ls rest' :
  Forall (fun l => lineFree l = true) ls ->
  JS.join (String JS.CR "") ls <> String JS.LF rest'.
Proof.
  destruct ls as [|l ls]; [done|]. intros [Hl _]%Forall_cons.
  assert (Hhead : forall t, l +:+ t <> String JS.LF rest' \/ l = "").
  { intros t. destruct l as [|c l]; [by right|]. left. rewrite append_cons.
    cbn [lineFree] in Hl. apply andb_true_iff in Hl as [[_ Hlf]%andb_true_iff _].
    apply negb_true_iff, Ascii.eqb_neq in Hlf. congruence. }
  destruct ls as [|l' ls].
  - cbn [JS.join]. destruct (Hhead "") as [Hne| ->]; [by rewrite append_nil_r in Hne|done].
  - change (JS.join (String JS.CR "") (l :: l' :: ls))
      with (l +:+ String JS.CR (JS.join (String JS.CR "") (l' :: ls))).
    destruct (Hhead (String JS.CR (JS.join (String JS.CR "") (l' :: ls)))) as [Hne| ->];
      [done|]. by rewrite append_nil_l.
Qed.

(** X3: lines that hold no line break, joined by line feeds, by
    carriage returns or by carriage return and line feed pairs, are
    given back one by one by the line splitting of the parser. *)
Theorem splitLines_any_terminator sep ls :
  sep ∈ [String JS.LF ""; String JS.CR ""; String JS.CR (String JS.LF "")] ->
  ls <> [] ->
  Forall (fun l => lineFree l = true) ls ->
  JS.splitLines (JS.join sep ls) = ls.
Proof.
  intros Hsep Hne Hfree.
  apply elem_of_cons in Hsep as [->|Hsep]; [by apply splitLines_join|].
  apply elem_of_cons in Hsep as [->|Hsep].
  - induction ls as [|l ls IH]; [done|].
    apply Forall_cons in Hfree as [Hl Hls].
    destruct ls as [|l' ls]; [by apply splitLines_lineFree|].
    change (JS.join (String JS.CR "") (l :: l' :: ls))
      with (l +:+ String JS.CR (JS.join (String JS.CR "") (l' :: ls))).
    rewrite splitLines_app_cr; [by rewrite IH|done|].
    intros rest'. by apply join_cr_no_leading_lf.
  - apply list_elem_of_singleton in Hsep as ->.
    induction ls as [|l ls IH]; [done|].
    apply Forall_cons in Hfree as [Hl Hls].
    destruct ls as [|l' ls]; [by apply splitLines_lineFree|].
    change (JS.join (String JS.CR (String JS.LF "")) (l :: l' :: ls))
      with (l +:+ String JS.CR (String JS.LF
              (JS.join (String JS.CR (String JS.LF "")) (l' :: ls)))).
    rewrite splitLines_app_crlf by done. by rewrite IH.
Qed.

Lemma splitLines_any_terminator_witness :
  JS.splitLines (JS.join (String JS.CR (String JS.LF "")) ["id,text"; "1,ok"; ""; "2,fine"])
  = ["id,text"; "1,ok"; ""; "2,fine"].
Proof.
  apply splitLines_any_terminator.
  - apply elem_of_cons. right. apply elem_of_cons. right. by apply elem_of_cons; left.
  - done.
  - by repeat constructor.
Defined.

(** *** What trimming leaves *)

Lemma trimStart_cases s :
  JS.trimStart s = "" \/ startsInk (JS.trimStart s) = true.
Proof.
  induction s as [|c s IH]; [by left|]. cbn [JS.trimStart].
  destruct (JS.isWhiteSpace c) eqn:Hws; [done|]. right. cbn. by rewrite Hws.
Qed.

Lemma trimEnd_cases s : JS.trimEnd s = "" \/ endsInk (JS.trimEnd s) = true.
Proof.
  induction s as [|c s IH]; [by left|]. cbn [JS.trimEnd].
  destruct (JS.trimEnd s) as [|d t] eqn:Hend.
  - destruct (JS.isWhiteSpace c) eqn:Hws; [by left|]. right. cbn. by rewrite Hws.
  - right. by destruct IH.
Qed.

Lemma trimEnd_startsInk s : startsInk s = true -> startsInk (JS.trimEnd s) = true.
Proof.
  destruct s as [|c s]; [done|]. cbn [startsInk JS.trimEnd]. intros Hc.
  destruct (JS.trimEnd s); [|done]. apply negb_true_iff in Hc. rewrite Hc. cbn.
  by rewrite Hc.
Qed.

Lemma trim_cases s :
  JS.trim s = "" \/ (startsInk (JS.trim s) = true /\ endsInk (JS.trim s) = true).
Proof.
  unfold JS.trim. destruct (trimStart_cases s) as [->|Hstart]; [by left|].
  destruct (trimEnd_cases (JS.trimStart s)) as [Hend|Hend]; [by left|].
  right. split; [by apply trimEnd_startsInk|done].
Qed.

Lemma trim_idem s : JS.trim (JS.trim s) = JS.trim s.
Proof.
  destruct (trim_cases s) as [->|[Hstart Hend]]; [done|]. by apply trim_stable.
Qed.

Lemma trim_fixed_ink s :
  JS.trim s = s -> s <> "" -> startsInk s = true /\ endsInk s = true.
Proof.
  intros Htrim Hne. destruct (trim_cases s) as [Hempty|Hink]; rewrite Htrim in *; done.
Qed.

(** *** Rows of a successful parse *)

Lemma splitLines_last_ink s :
  endsInk s = true ->
  exists ls l, JS.splitLines s = ls ++ [l] /\ hasInk l = true.
Proof.
  remember (String.length s) as n eqn:Hn. revert s Hn.
  induction n as [n IH] using lt_wf_ind. intros s -> Hend.
  destruct s as [|c rest]; [done|]. cbn [JS.splitLines].
  destruct (Ascii.eqb_spec c JS.CR) as [->|Hcr].
  - destruct rest as [|d rest']; [done|].
    change (endsInk (String JS.CR (String d rest'))) with (endsInk (String d rest')) in Hend.
    destruct (Ascii.eqb_spec d JS.LF) as [->|Hlf].
    + destruct rest' as [|e rest'']; [done|].
      change (endsInk (String JS.LF (String e rest''))) with (endsInk (String e rest'')) in Hend.
      destruct (IH (String.length (String e rest'')) ltac:(cbn; lia) _ eq_refl Hend)
        as (ls & l & -> & Hl).
      by exists ("" :: ls), l.
    + destruct (IH (String.length (String d rest')) ltac:(cbn; lia) _ eq_refl Hend)
        as (ls & l & -> & Hl).
      by exists ("" :: ls), l.
  - destruct (Ascii.eqb_spec c JS.LF) as [->|Hlf].
    + destruct rest as [|d rest']; [done|].
      change (endsInk (String JS.LF (String d rest'))) with (endsInk (String d rest')) in Hend.
      destruct (IH (String.length (String d rest')) ltac:(cbn; lia) _ eq_refl Hend)
        as (ls & l & -> & Hl).
      by exists ("" :: ls), l.
    + destruct rest as [|d rest'].
      * exists [], (String c ""). split; [done|]. cbn in *. by rewrite Hend.
      * change (endsInk (String c (String d rest'))) with (endsInk (String d rest')) in Hend.
        destruct (IH (String.length (String d rest')) ltac:(cbn; lia) _ eq_refl Hend)
          as (ls & l & -> & Hl).
        destruct ls as [|l0 ls].
        -- exists [], (String c l). split; [done|]. cbn [hasInk]. by rewrite Hl, orb_true_r.
        -- by exists (String c l0 :: ls), l.
Qed.

Lemma parseLine_from_nonempty line result field q :
  parseLine_from line result field q <> [].
Proof.
  remember (String.length line) as n eqn:Hn. revert line result field q Hn.
  induction n as [n IH] using lt_wf_ind. intros line result field q ->.
  assert (Hshort : forall l r f b,
             String.length l < String.length line -> parseLine_from l r f b <> [])
    by (intros l r f b Hlt; by eapply IH).
  clear IH. destruct line as [|c rest]; [cbn; by destruct result|].
  cbn [parseLine_from]. destruct q.
  - destruct (Ascii.eqb c JS.QUOTE); [|apply Hshort; cbn; lia].
    destruct rest as [|d rest']; [cbn; by destruct result|].
    destruct (Ascii.eqb d JS.QUOTE); apply Hshort; cbn; lia.
  - destruct (Ascii.eqb c JS.COMMA); [apply Hshort; cbn; lia|].
    destruct (Ascii.eqb c JS.QUOTE); apply Hshort; cbn; lia.
Qed.

Lemma rows_counted headers ls :
  length (dropNull (map (lineToRow headers) ls))
  = length (filter (fun l => hasInk l = true) ls).
Proof.
  induction ls as [|l ls IH]; [done|]. cbn [map]. rewrite filter_cons.
  unfold dropNull, lineToRow at 1. rewrite truthy_trim. cbn [omap list_omap].
  destruct (hasInk l) eqn:Hink; cbn [negb id].
  - rewrite decide_True by done. cbn [length]. f_equal. apply IH.
  - rewrite decide_False by done. apply IH.
Qed.

Lemma parseCsv_inv text headers data :
  parseCsv text = Ok (headers, data) ->
  2 <= length (csvLines text)
  /\ headers = parseLine (hd "" (csvLines text))
  /\ data = dropNull (map (lineToRow headers) (tl (csvLines text))).
Proof.
  unfold parseCsv. destruct (length (csvLines text) <? 2)%nat eqn:Hlen; [done|].
  apply Nat.ltb_ge in Hlen. by intros [= <- <-].
Qed.

(** The last line of a trimmed text of two lines or more is not blank,
    so it gives a row. *)
Lemma parsed_rows_nonempty text headers :
  2 <= length (csvLines text) ->
  dropNull (map (lineToRow headers) (tl (csvLines text))) <> [].
Proof.
  unfold csvLines. intros Hlen Hnil.
  assert (Hcount := rows_counted headers (tl (JS.splitLines (JS.trim text)))).
  rewrite Hnil in Hcount. cbn [length] in Hcount.
  destruct (trim_cases text) as [Hempty|[_ Hend]].
  { rewrite Hempty in Hlen. cbn in Hlen. lia. }
  destruct (splitLines_last_ink _ Hend) as (ls & l & Hsplit & Hl).
  rewrite Hsplit in *. destruct ls as [|l0 ls]; [cbn in Hlen; lia|].
  cbn [app tl] in *.
  rewrite filter_app, filter_cons, decide_True, length_app in Hcount by done.
  cbn in Hcount. lia.
Qed.

(** X4: a successful parse has at least one header and at least one
    row, and as many rows as the trimmed text has data lines with a
    character that is not white space: blank data lines give no row. *)
Theorem parseCsv_rows_counted text headers data :
  parseCsv text = Ok (headers, data) ->
  headers <> []
  /\ data <> []
  /\ length data
     = length (filter (fun l => hasInk l = true) (tl (JS.splitLines (JS.trim text)))).
Proof.
  intros (Hlen & -> & ->)%parseCsv_inv.
  split; [apply parseLine_from_nonempty|].
  split; [by apply parsed_rows_nonempty|apply rows_counted].
Qed.

Lemma parseCsv_rows_counted_witness :
  parseCsv ("a,b" +:+ String JS.LF ("1" +:+ String JS.LF "2,3,4"))
  = Ok (["a"; "b"], [[("a", "1"); ("b", "")]; [("a", "2"); ("b", "3")]])
  /\ [[("a", "1"); ("b", "")]; [("a", "2"); ("b", "3")]] <> ([] : list Row).
Proof.
  split; [reflexivity|].
  apply (parseCsv_rows_counted
           ("a,b" +:+ String JS.LF ("1" +:+ String JS.LF "2,3,4")) ["a"; "b"] _ eq_refl).
Defined.

Lemma row_keys_insert_congr (row row' : Row) k v v' :
  row_keys row = row_keys row' ->
  row_keys (row_insert row k v) = row_keys (row_insert row' k v').
Proof.
  unfold row_keys. revert row'.
  induction row as [|[k1 v1] row IH]; intros [|[k2 v2] row'] Hkeys; try done.
  cbn in Hkeys. injection Hkeys as -> Hkeys. cbn.
  destruct (JS.ranksBefore k k2); cbn; [by rewrite Hkeys|]. f_equal. by apply IH.
Qed.

Lemma row_keys_set_congr (row row' : Row) k v v' :
  row_keys row = row_keys row' ->
  row_keys (row_set row k v) = row_keys (row_set row' k v').
Proof.
  intros Hkeys. destruct (decide (k = "__proto__")) as [->|Hk]; [done|].
  destruct (row_set_cases row k v Hk) as [[Hin ->]|[Hnot ->]],
    (row_set_cases row' k v' Hk) as [[Hin' ->]|[Hnot' ->]].
  - by rewrite !row_keys_update.
  - by rewrite Hkeys in Hin.
  - by rewrite Hkeys in Hnot.
  - by apply row_keys_insert_congr.
Qed.

Lemma fillRow_keys_congr headers index index' values values' (row row' : Row) :
  row_keys row = row_keys row' ->
  row_keys (fillRow headers index values row)
  = row_keys (fillRow headers index' values' row').
Proof.
  revert index index' row row'.
  induction headers as [|h hs IH]; intros index index' row row' Hkeys; [done|].
  cbn [fillRow]. apply IH. by apply row_keys_set_congr.
Qed.

Lemma row_set_NoDup (row : Row) k v :
  NoDup (row_keys row) -> NoDup (row_keys (row_set row k v)).
Proof.
  intros Hrow. destruct (decide (k = "__proto__")) as [->|Hk]; [done|].
  destruct (row_set_cases row k v Hk) as [[_ ->]|[Hnot ->]].
  - by rewrite row_keys_update.
  - clear Hk. unfold row_keys in *. induction row as [|[k' v'] row IH]; cbn.
    + apply NoDup_singleton.
    + apply NoDup_cons in Hrow as [Hk' Hrow].
      apply not_elem_of_cons in Hnot as [Hne Hnot].
      destruct (JS.ranksBefore k k'); cbn.
      * apply NoDup_cons. split; [|by apply NoDup_cons].
        intros [?|?]%elem_of_cons; done.
      * apply NoDup_cons. split; [|by apply IH].
        intros [Hin| ->]%(row_keys_insert row k v k'); done.
Qed.

Lemma fillRow_NoDup headers index values (row : Row) :
  NoDup (row_keys row) -> NoDup (row_keys (fillRow headers index values row)).
Proof.
  revert index row. induction headers as [|h hs IH]; intros index row Hrow; [done|].
  cbn [fillRow]. by apply IH, row_set_NoDup.
Qed.

Lemma fillRow_keys_fresh headers index values (row : Row) :
  NoDup (row_keys row ++ headers) ->
  keyOrdered (row_keys row ++ headers) = true ->
  row_keys (fillRow headers index values row) = row_keys row ++ headers.
Proof.
  revert index row. induction headers as [|h hs IH]; intros index row Hnodup Hord.
  - by rewrite app_nil_r.
  - cbn [fillRow].
    pose proof Hnodup as (Hrow & Hdisj & [Hh Hhs]%NoDup_cons)%NoDup_app.
    pose proof Hord as (_ & (Hk & _ & _)%keyOrdered_cons & Hbefore)%keyOrdered_app.
    assert (Hset : row_set row h (JS.orEmpty (values !! index))
                   = row ++ [(h, JS.orEmpty (values !! index))]).
    { apply row_set_fresh; [done| |].
      - intros Hin. apply (Hdisj h Hin). by left.
      - intros k' Hk'. apply (Hbefore k' h); [done|by left]. }
    rewrite Hset. unfold row_keys in *.
    assert (Hassoc : (row ++ [(h, JS.orEmpty (values !! index))]).*1 ++ hs
                     = row.*1 ++ h :: hs)
      by (rewrite fmap_app; cbn; by rewrite <- app_assoc).
    rewrite IH; [done|by rewrite Hassoc|by rewrite Hassoc].
Qed.

(** X5: the rows of one parse all have the same keys in the same
    order, without repetition and in the order in which an object
    lists its keys (array indices first, by ascending value, and no
    key [__proto__]); when no header is repeated and the headers are
    themselves in that order, these are the headers in their order. *)
Theorem parseCsv_rows_share_keys text headers data :
  parseCsv text = Ok (headers, data) ->
  (forall row row', row ∈ data -> row' ∈ data -> row_keys row = row_keys row')
  /\ (forall row, row ∈ data -> NoDup (row_keys row))
  /\ (forall row, row ∈ data -> keyOrdered (row_keys row) = true)
  /\ (NoDup headers -> keyOrdered headers = true ->
      forall row, row ∈ data -> row_keys row = headers).
Proof.
  unfold parseCsv, csvLines. destruct (_ <? 2)%nat; [done|]. intros [= <- <-].
  set (headers := parseLine _).
  assert (Hrow : forall row, row ∈ dropNull (map (lineToRow headers) (tl (JS.splitLines (JS.trim text)))) ->
                   exists values, row = fillRow headers 0 values []).
  { intros row (line & Hline & _)%dropNull_elem%list_elem_of_fmap.
    unfold lineToRow in Hline. destruct (negb _); [done|]. injection Hline as ->. eauto. }
  split; [|split; [|split]].
  - intros row row' (vs & ->)%Hrow (vs' & ->)%Hrow. by apply fillRow_keys_congr.
  - intros row (vs & ->)%Hrow. apply fillRow_NoDup. apply NoDup_nil_2.
  - intros row (vs & ->)%Hrow. by apply fillRow_ordered.
  - intros Hnodup Hord row (vs & ->)%Hrow. by rewrite fillRow_keys_fresh.
Qed.

Lemma parseCsv_rows_share_keys_witness :
  parseCsv ("a,b" +:+ String JS.LF ("1" +:+ String JS.LF "2,3,4"))
  = Ok (["a"; "b"], [[("a", "1"); ("b", "")]; [("a", "2"); ("b", "3")]])
  /\ row_keys [("a", "1"); ("b", "")] = ["a"; "b"].
Proof.
  split; [reflexivity|].
  destruct (parseCsv_rows_share_keys
              ("a,b" +:+ String JS.LF ("1" +:+ String JS.LF "2,3,4")) ["a"; "b"] _ eq_refl)
    as (_ & _ & _ & Hkeys).
  apply Hkeys; [by apply (bool_decide_unpack (NoDup ["a"; "b"]))|reflexivity|].
  apply elem_of_cons. by left.
Defined.

(** Headers that are array indices in descending order: the rows list
    them in ascending order. *)
Example index_headers_are_sorted :
  parseCsv Sample.indexHeaders = Ok (["2"; "1"], [[("1", "y"); ("2", "x")]]).
Proof. reflexivity. Qed.

(** * Column detection and the upload handler *)

Lemma startsWith_spec p s :
  JS.startsWith p s = true <-> exists post, s = p +:+ post.
Proof.
  revert s. induction p as [|a p IH]; intros s; cbn [JS.startsWith].
  - split; [intros _; by exists s|done].
  - destruct s as [|c s].
    + split; [done|]. by intros [post Hpost].
    + rewrite andb_true_iff, IH. split.
      * intros [->%Ascii.eqb_eq [post ->]]. by exists post.
      * intros [post [= -> ->]]. split; [apply Ascii.eqb_refl|by exists post].
Qed.

(** [includes] is the test that the needle occurs somewhere. *)
Lemma includes_spec needle s :
  JS.includes needle s = true <-> exists pre post, s = pre +:+ needle +:+ post.
Proof.
  induction s as [|c s IH]; cbn [JS.includes]; rewrite orb_true_iff, startsWith_spec.
  - split.
    + intros [[post ->]|?]; [|done]. by exists "", post.
    + intros (pre & post & Heq). left. destruct pre as [|a pre]; [by exists post|done].
  - rewrite IH. split.
    + intros [[post ->]|(pre & post & ->)]; [by exists "", post|].
      by exists (String c pre), post.
    + intros ([|a pre] & post & Heq).
      * left. by exists post.
      * right. rewrite append_cons in Heq. injection Heq as -> ->. by exists pre, post.
Qed.

Lemma hasKeyword_spec header :
  hasKeyword header = true
  <-> exists keyword pre post,
        keyword ∈ keywords /\ JS.toLowerCase header = pre +:+ keyword +:+ post.
Proof.
  unfold hasKeyword. rewrite existsb_exists. split.
  - intros (k & Hk%list_elem_of_In & (pre & post & Heq)%includes_spec). by exists k, pre, post.
  - intros (k & pre & post & Hk%list_elem_of_In & Heq). exists k. split; [done|].
    apply includes_spec. by exists pre, post.
Qed.

(** X6: the detected column is the first header, in upload order,
    whose lower-cased text contains one of the five keywords; it is the
    empty name exactly when no header contains one. *)
Theorem detectColumn_first_match headers :
  (detectColumn headers = "" /\ Forall (fun h => hasKeyword h = false) headers)
  \/ (exists before after,
        headers = before ++ detectColumn headers :: after
        /\ Forall (fun h => hasKeyword h = false) before
        /\ exists keyword pre post,
             keyword ∈ keywords
             /\ JS.toLowerCase (detectColumn headers) = pre +:+ keyword +:+ post).
Proof.
  induction headers as [|h hs IH]; [by left|]. cbn [detectColumn].
  destruct (hasKeyword h) eqn:Hh.
  - right. exists [], hs. split; [done|]. split; [done|]. by apply hasKeyword_spec.
  - destruct IH as [[Hnone Hall]|(before & after & Heq & Hbefore & Hkey)].
    + left. split; [done|]. by apply Forall_cons.
    + right. exists (h :: before), after. split; [by rewrite Heq at 1|].
      split; [by apply Forall_cons|done].
Qed.

Example detect_customer_feedback :
  detectColumn ["id"; "Customer Feedback"; "date"] = "Customer Feedback"
  /\ detectColumn ["id"; "date"] = ""
  /\ detectColumn ["Context"; "Response"] = "Context".
Proof. by repeat split. Qed.

Lemma detectColumn_elem headers :
  detectColumn headers = "" \/ detectColumn headers ∈ headers.
Proof.
  induction headers as [|h hs IH]; [by left|]. cbn [detectColumn].
  destruct (hasKeyword h); [right; by left|].
  destruct IH as [?|?]; [by left|right; by right].
Qed.

(** X7: after an upload the page holds either an error message and no
    upload at all, whatever had been uploaded before, or no error and
    at least one row, such that every stored row has a value of its
    own under every stored header other than [__proto__], has no key
    [__proto__], and the preselected column is the empty name or one
    of the stored headers.  The held suggestions, the pending results
    and the mode of a run are not touched. *)
Theorem upload_outcome text pg :
  let pg' := handleResponseFileUpload text pg in
  ((is_Some (Page.error pg') /\ Page.uploadedData pg' = []
    /\ Page.dataHeaders pg' = [] /\ Page.responseColumn pg' = "")
   \/ (Page.error pg' = None /\ Page.uploadedData pg' <> []
       /\ (Page.responseColumn pg' = ""
           \/ Page.responseColumn pg' ∈ Page.dataHeaders pg')
       /\ forall row, row ∈ Page.uploadedData pg' ->
             row_get row "__proto__" = None
             /\ forall h, h ∈ Page.dataHeaders pg' -> h <> "__proto__" ->
                   is_Some (row_get row h)))
  /\ Page.suggestedThemes pg' = Page.suggestedThemes pg
  /\ Page.pendingResults pg' = Page.pendingResults pg
  /\ Page.analysisMode pg' = Page.analysisMode pg.
Proof.
  cbv zeta. unfold handleResponseFileUpload.
  destruct (parseCsv text) as [[headers data]|message] eqn:Hparse; cbn.
  - split; [|done]. right. apply parseCsv_inv in Hparse as (Hlen & Hheaders & Hdata).
    split; [done|]. split; [rewrite Hdata; by apply parsed_rows_nonempty|].
    split; [apply detectColumn_elem|].
    intros row Hrow. rewrite Hdata in Hrow.
    apply dropNull_elem, list_elem_of_fmap in Hrow as (line & Hline & _).
    unfold lineToRow in Hline. destruct (negb _); [done|]. injection Hline as ->.
    split.
    + apply row_get_None. rewrite fillRow_keys. unfold row_keys. cbn.
      rewrite elem_of_nil. naive_solver.
    + intros h Hh Hproto. apply row_get_is_Some, fillRow_keys. by right.
  - split; [|done]. left. split; [by eexists|done].
Qed.

(** A file with the header [__proto__]: the header is stored, and the
    row has no value of its own under it. *)
Example upload_proto_header :
  let pg := handleResponseFileUpload Sample.protoHeader Sample.page0 in
  Page.dataHeaders pg = ["__proto__"; "b"]
  /\ Page.uploadedData pg = [[("b", "y")]]
  /\ Page.error pg = None.
Proof. by repeat split. Qed.

Example upload_failure_discards_upload :
  let pg := handleResponseFileUpload "id,text" Sample.page0 in
  Page.uploadedData pg = [] /\ Page.dataHeaders pg = [] /\ Page.responseColumn pg = ""
  /\ Page.error pg
     = Some "Error parsing CSV file. CSV must have a header row and at least one data row.".
Proof. by repeat split. Qed.

(** * Further properties of the reconciliation *)

Lemma NoDup_map_inj {A B} (f : A -> B) (l : list A) x y :
  NoDup (map f l) -> x ∈ l -> y ∈ l -> f x = f y -> x = y.
Proof.
  induction l as [|a l IH]; cbn [map]; [by intros _ ?%elem_of_nil|].
  rewrite NoDup_cons. intros [Hnot Hl] Hx Hy Heq.
  apply elem_of_cons in Hx as [->|Hx]; apply elem_of_cons in Hy as [->|Hy]; [done|..].
  - destruct Hnot. rewrite Heq. apply list_elem_of_In, in_map. by apply list_elem_of_In.
  - destruct Hnot. rewrite <- Heq. apply list_elem_of_In, in_map. by apply list_elem_of_In.
  - by apply IH.
Qed.

(** X8: when the uploaded rows have pairwise different response texts,
    a record that echoes the text of a row is attached to that very
    row, at whatever position of the batch it comes back. *)
Theorem distinct_texts_match uploaded col r index d :
  NoDup (map (fun d => row_get d col) uploaded) ->
  d ∈ uploaded ->
  row_get d col = Some (Api.originalResponse r) ->
  originalDataRow uploaded col r index = Some d.
Proof.
  intros Hnodup Hd Hget. unfold originalDataRow.
  destruct (List.find _ uploaded) as [d'|] eqn:Hfind.
  - apply find_some in Hfind as [Hin Hd']. apply bool_decide_eq_true in Hd'.
    f_equal. apply (NoDup_map_inj (fun d => row_get d col) uploaded);
      [done|by apply list_elem_of_In|done|congruence].
  - apply list_elem_of_In in Hd. eapply find_none in Hfind; [|exact Hd].
    by rewrite bool_decide_eq_false in Hfind.
Qed.

(** A record that comes back first and echoes the second row. *)
Lemma distinct_texts_match_witness :
  originalDataRow [Sample.rowGood; Sample.rowBad] "text"
    (Sample.record "bad" "Complaint" None) 0
  = Some Sample.rowBad.
Proof.
  apply distinct_texts_match.
  - by apply (bool_decide_unpack (NoDup _)).
  - apply elem_of_cons. right. by left.
  - done.
Defined.

(** The records come back in the reverse of the upload order. *)
Example reconcile_reversed_batch :
  map rawData (reconcile [Sample.rowGood; Sample.rowBad] "text"
                 [Sample.record "bad" "Complaint" None; Sample.record "good" "Praise" None])
  = [Some Sample.rowBad; Some Sample.rowGood].
Proof. reflexivity. Qed.

Lemma originalDataRow_source uploaded col r index d :
  originalDataRow uploaded col r index = Some d ->
  d ∈ uploaded
  /\ (row_get d col = Some (Api.originalResponse r) \/ uploaded !! index = Some d).
Proof.
  unfold originalDataRow. destruct (List.find _ uploaded) as [d'|] eqn:Hfind.
  - intros [= ->]. apply find_some in Hfind as [Hin Hd]. apply bool_decide_eq_true in Hd.
    split; [by apply list_elem_of_In|by left].
  - intros Hd. split; [by eapply list_elem_of_lookup_2|by right].
Qed.

Lemma originalDataRow_defined uploaded col r index :
  index < length uploaded -> is_Some (originalDataRow uploaded col r index).
Proof.
  intros Hi. unfold originalDataRow. destruct (List.find _ uploaded); [by eexists|].
  by apply lookup_lt_is_Some.
Qed.

(** X9: when the batch is not longer than the upload, the reconciler
    gives one result per record, in the order of the records, with the
    theme of the record and the selected column; every result carries
    an uploaded row, which either has the text of the record under
    that column or is the row at the position of the record. *)
Theorem reconcile_rows_are_uploaded uploaded col records :
  length records <= length uploaded ->
  length (reconcile uploaded col records) = length records
  /\ forall i r, reconcile uploaded col records !! i = Some r ->
       responseColumn r = col
       /\ exists record d,
            records !! i = Some record
            /\ themeName r = Api.themeName record
            /\ rawData r = Some d
            /\ d ∈ uploaded
            /\ (row_get d col = Some (Api.originalResponse record)
                \/ uploaded !! i = Some d).
Proof.
  intros Hlen. unfold reconcile. split; [apply length_imap|].
  intros i r Hr. rewrite list_lookup_imap in Hr.
  destruct (records !! i) as [record|] eqn:Hrec; [|done]. injection Hr as <-.
  split; [done|].
  assert (Hi : i < length uploaded) by (apply lookup_lt_Some in Hrec; lia).
  destruct (originalDataRow_defined uploaded col record i Hi) as [d Hd].
  destruct (originalDataRow_source _ _ _ _ _ Hd) as [Hin Hwhy].
  exists record, d. by cbn [themeName rawData toCodingResult].
Qed.

Lemma reconcile_rows_are_uploaded_witness :
  length [Sample.first; Sample.second] <= length [Sample.row1; Sample.row2]
  /\ length (reconcile [Sample.row1; Sample.row2] "text" [Sample.first; Sample.second]) = 2.
Proof.
  split; [cbn; lia|].
  apply (reconcile_rows_are_uploaded [Sample.row1; Sample.row2] "text"
           [Sample.first; Sample.second]). cbn. lia.
Defined.

(** A record beyond the end of the upload whose text no row carries
    gets no row at all. *)
Example reconcile_beyond_upload :
  map rawData (reconcile [Sample.rowGood] "text"
                 [Sample.record "good" "Praise" None; Sample.record "so-so" "Mixed" None])
  = [Some Sample.rowGood; None].
Proof. reflexivity. Qed.

(** X10: a run that queues suggestions commits nothing: the state of
    the application is what it was, while the upload, its headers and
    the selected column are already cleared and the finalized records
    are only held on the page.  Closing the approval dialog without
    finishing changes none of this, and a further run on that page,
    whatever the service gives, leaves the application as it was. *)
Theorem queued_run_commits_nothing mode records app pg :
  JS.truthy (Page.responseColumn pg) = true ->
  filter (fun r => isSuggestion r)
         (reconcile (Page.uploadedData pg) (Page.responseColumn pg) records) <> [] ->
  let st := runAnalysis mode (ApiResults records) (app, pg) in
  let pg' := closeSuggestionModal st.2 in
  st.1 = app
  /\ Page.uploadedData pg' = [] /\ Page.dataHeaders pg' = []
  /\ Page.responseColumn pg' = ""
  /\ Page.pendingResults pg'
     = filter (fun r => isRegular r)
              (reconcile (Page.uploadedData pg) (Page.responseColumn pg) records)
  /\ Page.isSuggestionModalOpen pg' = false
  /\ forall mode' outcome', (runAnalysis mode' outcome' (st.1, pg')).1 = app.
Proof.
  intros Hcol Hsug. cbv zeta. unfold runAnalysis at 1 2 3 4 5 6. rewrite Hcol. cbn [negb].
  destruct (filter (fun r => isSuggestion r) _) as [|s ss] eqn:Hs; [done|].
  cbn [length Nat.ltb Nat.leb fst snd closeSuggestionModal Page.uploadedData
       Page.dataHeaders Page.responseColumn Page.pendingResults
       Page.isSuggestionModalOpen].
  do 6 (split; [done|]). intros mode' outcome'. unfold runAnalysis.
  rewrite Hcol. cbn [negb]. rewrite Hs. done.
Qed.

Lemma queued_run_commits_nothing_witness :
  JS.truthy (Page.responseColumn Sample.page0) = true
  /\ (runAnalysis append (ApiResults [Sample.fullySuggested; Sample.first])
        (Sample.withResults Sample.five Sample.app0, Sample.page0)).1
     = Sample.withResults Sample.five Sample.app0.
Proof.
  split; [reflexivity|].
  apply (queued_run_commits_nothing append [Sample.fullySuggested; Sample.first]
           (Sample.withResults Sample.five Sample.app0) Sample.page0 eq_refl).
  discriminate.
Defined.

Lemma routing_cases r :
  (isRegular r = true /\ isSuggestion r = false /\ halfSuggestion r = false)
  \/ (isRegular r = false /\ isSuggestion r = true /\ halfSuggestion r = false)
  \/ (isRegular r = false /\ isSuggestion r = false /\ halfSuggestion r = true).
Proof.
  unfold isRegular, isSuggestion, halfSuggestion.
  destruct (suggestedTheme r) as [t|]; [|by left].
  destruct (JS.truthy (name t)), (JS.truthy (description t)); cbn; tauto.
Qed.

(** X11: the two filters of a run and the records they both miss share
    out the batch: the finalized records, the queued suggestions and
    the suggestions with a name and no description are, together,
    the reconciled batch, each record counted once. *)
Theorem routing_shares_out (newResults : list CodingResult) :
  filter (fun r => isRegular r) newResults
  ++ filter (fun r => isSuggestion r) newResults
  ++ filter (fun r => halfSuggestion r) newResults
  ≡ₚ newResults.
Proof.
  induction newResults as [|r rs IH]; [done|]. rewrite !filter_cons.
  destruct (routing_cases r) as [(-> & -> & ->)|[(-> & -> & ->)|(-> & -> & ->)]].
  - cbn. rewrite (decide_True (P:=True)), !(decide_False (P:=False)) by tauto.
    cbn. by constructor.
  - cbn. rewrite (decide_True (P:=True)), !(decide_False (P:=False)) by tauto.
    cbn [app]. rewrite <- Permutation_middle. by constructor.
  - cbn. rewrite (decide_True (P:=True)), !(decide_False (P:=False)) by tauto.
    rewrite app_assoc, <- Permutation_middle, <- app_assoc. by constructor.
Qed.

(** * The approval modal under edits *)

Lemma coding_imap (f : nat -> SuggestedThemeWithStatus -> SuggestedThemeWithStatus) l :
  (forall i s, coding (f i s) = coding s) ->
  map coding (imap f l) = map coding l.
Proof.
  revert f. induction l as [|s l IH]; intros f Hf; [done|].
  rewrite imap_cons. cbn [map]. rewrite Hf. f_equal. apply IH. intros i s'. apply Hf.
Qed.

Lemma modalStep_coding prev e : map coding (modalStep prev e) = map coding prev.
Proof.
  destruct e as [index|index field value]; cbn [modalStep];
    unfold handleToggleApproval, handleFieldChange; apply coding_imap; intros i s;
    case_bool_decide; [done|done|by destruct field|done].
Qed.

Lemma seedSuggestions_coding suggestions :
  map coding (seedSuggestions suggestions) = suggestions.
Proof.
  unfold seedSuggestions. rewrite map_map. rewrite <- (map_id suggestions) at 2.
  apply map_ext. intros s. by destruct (suggestedTheme s).
Qed.

Lemma finalOf_field {B} (g : CodingResult -> B) shown suggestions :
  map coding shown = suggestions ->
  (forall s, g (finalOf s) = g (coding s)) ->
  map g (map finalOf shown) = map g suggestions.
Proof.
  intros <- Hg. rewrite !map_map. apply map_ext. intros s. apply Hg.
Qed.

(** X12: whatever the user toggles and types in the approval modal, in
    whatever order, finishing gives one result for every queued
    suggestion, in the queued order, with the row, the response
    column, the sentiment, the confidence and the reasoning of that
    suggestion, and without suggestion payload. *)
Theorem modal_edits_keep_records edits suggestions :
  let shown := fold_left modalStep edits (seedSuggestions suggestions) in
  let finalResults := (handleFinish shown).1 in
  map coding shown = suggestions
  /\ map rawData finalResults = map rawData suggestions
  /\ map responseColumn finalResults = map responseColumn suggestions
  /\ map sentiment finalResults = map sentiment suggestions
  /\ map confidenceScore finalResults = map confidenceScore suggestions
  /\ map reasoning finalResults = map reasoning suggestions
  /\ Forall (fun r => suggestedTheme r = None) finalResults.
Proof.
  cbv zeta.
  assert (Hshown : map coding (fold_left modalStep edits (seedSuggestions suggestions))
                   = suggestions).
  { rewrite <- (seedSuggestions_coding suggestions) at 2.
    generalize (seedSuggestions suggestions). induction edits as [|e edits IH]; [done|].
    intros shown. cbn [fold_left]. by rewrite IH, modalStep_coding. }
  rewrite handleFinish_spec. cbn [fst]. split; [done|].
  rewrite <- !(finalOf_field _ _ _ Hshown) by done. repeat split.
  apply Forall_forall. by intros r (s & -> & _)%list_elem_of_fmap.
Qed.

Example toggle_twice :
  handleToggleApproval 1 (handleToggleApproval 1 Sample.batch3) = Sample.batch3.
Proof. reflexivity. Qed.

(** * Further properties of the taxonomy store *)

Lemma someNamed_app prev more n :
  someNamed (prev ++ more) n = someNamed prev n || someNamed more n.
Proof. unfold someNamed. apply existsb_app. Qed.

Lemma someNamed_self themes t : t ∈ themes -> someNamed themes (name t) = true.
Proof.
  intros Ht. apply someNamed_spec, list_elem_of_fmap. by exists t.
Qed.

Lemma filter_none {A} (P : A -> Prop) `{forall x, Decision (P x)} (l : list A) :
  (forall x, x ∈ l -> ~ P x) -> filter P l = [].
Proof.
  induction l as [|x l IH]; intros Hnone; [done|]. rewrite filter_cons.
  rewrite decide_False by (apply Hnone; by left). apply IH. intros y Hy. apply Hnone. by right.
Qed.

Lemma filter_all {A} (P : A -> Prop) `{forall x, Decision (P x)} (l : list A) :
  (forall x, x ∈ l -> P x) -> filter P l = l.
Proof.
  induction l as [|x l IH]; intros Hall; [done|]. rewrite filter_cons.
  rewrite decide_True by (apply Hall; by left). f_equal. apply IH. intros y Hy.
  apply Hall. by right.
Qed.

Lemma mergeImported_idem newThemes prevThemes :
  mergeImported newThemes (mergeImported newThemes prevThemes)
  = mergeImported newThemes prevThemes.
Proof.
  unfold mergeImported at 1.
  rewrite filter_none; [by rewrite app_nil_r|].
  intros t Ht Hfresh. apply negb_prop_elim in Hfresh. apply Hfresh, Is_true_true.
  unfold mergeImported. rewrite someNamed_app.
  destruct (someNamed prevThemes (name t)) eqn:Hprev; [done|]. cbn [orb].
  apply someNamed_self, list_elem_of_filter. split; [|done].
  rewrite Hprev. done.
Qed.

Lemma handleSetThemes_twice f g app :
  handleSetThemes f (handleSetThemes g app) = handleSetThemes (fun l => f (g l)) app.
Proof.
  unfold handleSetThemes. destruct (JS.truthy (activeCodebook app)) eqn:Hactive; cbn.
  - rewrite Hactive. cbn. by rewrite lookup_insert_eq, insert_insert_eq.
  - by rewrite Hactive.
Qed.

Lemma handleSetThemes_ext f g app :
  f (activeThemes app) = g (activeThemes app) ->
  handleSetThemes f app = handleSetThemes g app.
Proof.
  unfold handleSetThemes, activeThemes. intros Heq.
  destruct (negb _); [done|]. by rewrite Heq.
Qed.

(** X13: importing the same codebook file a second time changes
    nothing: every theme of the file is then either stored or named
    like a stored one. *)
Theorem import_twice text app :
  handleFileUpload text (handleFileUpload text app) = handleFileUpload text app.
Proof.
  unfold handleFileUpload. rewrite handleSetThemes_twice.
  apply handleSetThemes_ext. apply mergeImported_idem.
Qed.

Lemma handleSetThemes_extends f app :
  activeThemes app `prefix_of` f (activeThemes app) ->
  extendsThemes app (handleSetThemes f app).
Proof.
  intros Hprefix. unfold extendsThemes. rewrite activeThemes_handleSetThemes.
  unfold handleSetThemes. destruct (JS.truthy (activeCodebook app)); cbn.
  - split; [done|]. split; [done|]. split; [|done].
    intros k Hk. by rewrite lookup_insert_ne.
  - by repeat split.
Qed.

Lemma extendsThemes_refl app : extendsThemes app app.
Proof. by repeat split. Qed.

(** X14: the single add, the bulk import and the folding in of approved
    suggestions only ever append to the active codebook: its stored
    themes stay, unchanged and in their order, at the front; no other
    codebook, nor the active name, the result set, the report or the
    chat is touched. *)
Theorem adding_only_appends app newThemeName newThemeDescription text newThemes :
  extendsThemes app (handleAddTheme newThemeName newThemeDescription app).1
  /\ extendsThemes app (handleFileUpload text app)
  /\ extendsThemes app (handleAddNewThemes newThemes app).
Proof.
  split; [|split].
  - unfold handleAddTheme. destruct (_ && _); [|apply extendsThemes_refl].
    destruct (someNamed _ _); [apply extendsThemes_refl|]. cbn [fst].
    apply handleSetThemes_extends. by apply prefix_app_r.
  - unfold handleFileUpload. apply handleSetThemes_extends.
    unfold mergeImported. by apply prefix_app_r.
  - unfold handleAddNewThemes. destruct (negb _); [apply extendsThemes_refl|].
    destruct (0 <? _)%nat; [|apply extendsThemes_refl].
    apply handleSetThemes_extends. by apply prefix_app_r.
Qed.

(** *** Names without blanks *)

Lemma truthy_ne s : JS.truthy s = true <-> s <> "".
Proof. unfold JS.truthy. rewrite negb_true_iff. apply String.eqb_neq. Qed.

Lemma wellNamed_trimmed n d :
  JS.truthy (JS.trim n) = true -> JS.truthy (JS.trim d) = true ->
  wellNamed (mkTheme (JS.trim n) (JS.trim d)).
Proof.
  intros Hn%truthy_ne Hd%truthy_ne. unfold wellNamed. cbn [name description].
  by rewrite !trim_idem.
Qed.

Lemma importedThemes_wellNamed text : Forall wellNamed (importedThemes text).
Proof.
  unfold importedThemes. apply Forall_forall.
  intros t [Htruthy Ht]%list_elem_of_filter.
  apply list_elem_of_fmap in Ht as (line & -> & _).
  apply andb_prop_elim in Htruthy as [Hn%Is_true_true Hd%Is_true_true].
  unfold parseThemeLine in *.
  destruct (JS.splitChar JS.COMMA line) as [|first parts]; [done|].
  cbn [name description] in *. by apply wellNamed_trimmed.
Qed.

Lemma Forall_filter_keep {A} (P : A -> Prop) (Q : A -> Prop) `{forall x, Decision (Q x)} l :
  Forall P l -> Forall P (filter Q l).
Proof.
  intros Hl. apply Forall_forall. intros x [_ Hx]%list_elem_of_filter.
  by eapply Forall_forall in Hl.
Qed.

(** X15: the single add, the bulk import and the completion of the
    approval workflow keep the active codebook free of blank names:
    if every stored theme has a name and a description that are not
    empty and have no white space at their ends, so it is afterwards. *)
Theorem adding_keeps_names_trimmed app pg n d text ps :
  Forall wellNamed (activeThemes app) ->
  Forall wellNamed (activeThemes (handleAddTheme n d app).1)
  /\ Forall wellNamed (activeThemes (handleFileUpload text app))
  /\ Forall wellNamed (activeThemes (finishSuggestions ps (app, pg)).1).
Proof.
  intros Hinv. split; [|split].
  - unfold handleAddTheme.
    destruct (JS.truthy (JS.trim n)) eqn:Hn; [|done].
    destruct (JS.truthy (JS.trim d)) eqn:Hd; [|done].
    cbn [andb]. destruct (someNamed _ _); [done|]. cbn [fst].
    rewrite activeThemes_handleSetThemes.
    destruct (JS.truthy (activeCodebook app)); [|done].
    apply Forall_app. split; [done|]. apply Forall_singleton. by apply wellNamed_trimmed.
  - unfold handleFileUpload. rewrite activeThemes_handleSetThemes.
    destruct (JS.truthy (activeCodebook app)); [|done]. unfold mergeImported.
    apply Forall_app. split; [done|]. apply Forall_filter_keep, importedThemes_wellNamed.
  - unfold finishSuggestions. rewrite handleFinish_spec.
    cbn [handleSuggestionsComplete fst].
    change (activeThemes (mkApp ?c ?a ?r ?p ?h)) with (default [] (c !! a)).
    fold (activeThemes (handleAddNewThemes
                          (map themeOf (filter (fun s => accepted s) ps)) app)).
    destruct (JS.truthy (activeCodebook app)) eqn:Hactive.
    + rewrite activeThemes_handleAddNewThemes by done.
      apply Forall_app. split; [done|]. apply Forall_filter_keep, Forall_forall.
      intros t (s & -> & [Hacc _]%list_elem_of_filter)%list_elem_of_fmap.
      unfold accepted in Hacc.
      apply andb_prop_elim in Hacc as [[_ Hn%Is_true_true]%andb_prop_elim Hd%Is_true_true].
      by apply wellNamed_trimmed.
    + unfold handleAddNewThemes. by rewrite Hactive.
Qed.

Lemma adding_keeps_names_trimmed_witness :
  Forall wellNamed (activeThemes Sample.app0)
  /\ Forall wellNamed
       (activeThemes (handleFileUpload Sample.twoSupport Sample.app0)).
Proof.
  assert (Hinv : Forall wellNamed (activeThemes Sample.app0))
    by (apply Forall_singleton; by repeat split).
  split; [exact Hinv|].
  apply (adding_keeps_names_trimmed Sample.app0 Sample.page0 "" "" Sample.twoSupport []
           Hinv).
Defined.

(** *** Removal of a theme *)

Lemma removeAt_keep_all {A} (f : nat -> nat) index (l : list A) :
  (forall j, f j <> index) ->
  (filter (fun p : nat * A => p.1 <> index) (imap (fun j x => (f j, x)) l)).*2 = l.
Proof.
  revert f. induction l as [|x l IH]; intros f Hf; [done|].
  rewrite imap_cons, filter_cons. cbn [fst]. rewrite decide_True by apply Hf.
  cbn [fmap list_fmap snd]. f_equal. apply (IH (fun j => f (S j))). intros j. apply Hf.
Qed.

Lemma removeAt_offset {A} k index (l : list A) :
  (filter (fun p : nat * A => p.1 <> k + index) (imap (fun j x => (k + j, x)) l)).*2
  = delete index l.
Proof.
  revert k index. induction l as [|x l IH]; intros k index; [by destruct index|].
  rewrite imap_cons, filter_cons. cbn [fst]. destruct index as [|index].
  - rewrite decide_False by lia. cbn [delete list_delete].
    apply (removeAt_keep_all (fun j => k + S j)). intros j. lia.
  - rewrite decide_True by lia. cbn [fmap list_fmap snd delete list_delete]. f_equal.
    etrans; [|apply (IH (S k) index)].
    replace (k + S index) with (S k + index) by lia.
    f_equal. f_equal. apply imap_ext. intros j y _. cbn. f_equal. lia.
Qed.

Lemma removeAt_delete {A} index (l : list A) : removeAt index l = delete index l.
Proof. apply (removeAt_offset 0 index l). Qed.

Lemma delete_beyond {A} (l : list A) index : length l <= index -> delete index l = l.
Proof.
  revert index. induction l as [|x l IH]; intros index Hge; [by destruct index|].
  destruct index as [|index]; [cbn in Hge; lia|]. cbn. f_equal. apply IH. cbn in Hge. lia.
Qed.

(** X16: removing the theme at a position of the active codebook
    deletes this one theme and keeps the others in their order; a
    position beyond the last theme removes nothing; names that were
    distinct up to case stay so. *)
Theorem remove_theme index app :
  JS.truthy (activeCodebook app) = true ->
  activeThemes (handleRemoveTheme index app) = delete index (activeThemes app)
  /\ (length (activeThemes app) <= index ->
      activeThemes (handleRemoveTheme index app) = activeThemes app)
  /\ (index < length (activeThemes app) ->
      S (length (activeThemes (handleRemoveTheme index app))) = length (activeThemes app))
  /\ (distinctNames (activeThemes app) ->
      distinctNames (activeThemes (handleRemoveTheme index app))).
Proof.
  intros Hactive. unfold handleRemoveTheme.
  rewrite activeThemes_handleSetThemes, Hactive, removeAt_delete.
  split; [done|]. split; [|split].
  - intros Hge. by apply delete_beyond.
  - intros Hlt. rewrite length_delete by (by apply lookup_lt_is_Some). lia.
  - unfold distinctNames. intros Hnodup.
    eapply sublist_NoDup; [exact Hnodup|].
    change (map (fun t => JS.toLowerCase (name t)) (delete index (activeThemes app)))
      with ((fun t => JS.toLowerCase (name t)) <$> delete index (activeThemes app)).
    rewrite list_fmap_delete. apply sublist_delete.
Qed.

Lemma remove_theme_witness :
  JS.truthy (activeCodebook Sample.app0) = true
  /\ activeThemes (handleRemoveTheme 0 Sample.app0) = [].
Proof.
  split; [reflexivity|].
  apply (remove_theme 0 Sample.app0 eq_refl).
Defined.

(** *** Creation of a codebook *)

(** X17: creating a codebook never overwrites: a codebook that is
    stored keeps its themes whatever name is typed, and the result
    set, the report and the chat are left alone. *)
Theorem create_keeps_codebooks newCodebookName app k themes :
  codebooks app !! k = Some themes ->
  codebooks (handleCreateCodebook newCodebookName app) !! k = Some themes
  /\ results (handleCreateCodebook newCodebookName app) = results app
  /\ reportContent (handleCreateCodebook newCodebookName app) = reportContent app
  /\ chatHistory (handleCreateCodebook newCodebookName app) = chatHistory app.
Proof.
  intros Hk. unfold handleCreateCodebook, hasMember.
  destruct (JS.truthy (JS.trim newCodebookName)); cbn [andb]; [|done].
  case_bool_decide as Hsome; cbn [negb orb]; [done|].
  destruct (JS.inherited _); cbn [negb]; [done|]. cbn.
  split; [|done]. rewrite lookup_insert_ne; [done|].
  intros <-. apply Hsome. by eexists.
Qed.

Lemma create_keeps_codebooks_witness :
  codebooks Sample.app0 !! "survey" = Some [mkTheme "Support" "Help desk"]
  /\ codebooks (handleCreateCodebook " survey " Sample.app0) !! "survey"
     = Some [mkTheme "Support" "Help desk"].
Proof.
  split; [reflexivity|].
  apply (create_keeps_codebooks " survey " Sample.app0 "survey" _ eq_refl).
Defined.

(** X18: a new name that, once trimmed, is not empty and is not the
    name of a member every object inherits becomes an empty codebook
    and the active one; deleting it right away gives back the
    codebooks there were, yet empties the result set, the report and
    the chat. *)
Theorem create_then_delete newCodebookName app :
  JS.trim newCodebookName <> "" ->
  JS.inherited (JS.trim newCodebookName) = false ->
  codebooks app !! JS.trim newCodebookName = None ->
  let created := handleCreateCodebook newCodebookName app in
  activeCodebook created = JS.trim newCodebookName
  /\ activeThemes created = []
  /\ codebooks created !! JS.trim newCodebookName = Some []
  /\ codebooks (handleConfirmDelete created) = codebooks app
  /\ results (handleConfirmDelete created) = []
  /\ reportContent (handleConfirmDelete created) = ""
  /\ chatHistory (handleConfirmDelete created) = [].
Proof.
  intros Hname%truthy_ne Hown Hfresh. cbv zeta. unfold handleCreateCodebook, hasMember.
  rewrite Hname, Hown. cbn [andb].
  rewrite bool_decide_eq_false_2 by (rewrite Hfresh; by intros [? ?]). cbn [negb orb].
  unfold handleConfirmDelete, activeThemes. cbn [activeCodebook codebooks].
  rewrite Hname, lookup_insert_eq. unfold handleDeleteCodebook.
  cbn [codebooks results reportContent chatHistory default].
  by rewrite delete_insert_id.
Qed.

Lemma create_then_delete_witness :
  JS.trim " pilot " <> ""
  /\ codebooks (handleConfirmDelete (handleCreateCodebook " pilot " Sample.app0))
     = codebooks Sample.app0.
Proof.
  split; [done|].
  apply (create_then_delete " pilot " Sample.app0); [done|reflexivity|reflexivity].
Defined.

(** A name that every object inherits is refused, although no codebook
    has it: [codebooks[trimmedName]] reads the inherited member. *)
Example create_inherited_name :
  codebooks Sample.app0 !! "constructor" = None
  /\ handleCreateCodebook "constructor" Sample.app0 = Sample.app0
  /\ handleCreateCodebook " __proto__ " Sample.app0 = Sample.app0.
Proof. by repeat split. Qed.

(** *** The active codebook exists *)

Lemma storeInv_handleSetThemes f app : storeInv app -> storeInv (handleSetThemes f app).
Proof.
  intros [Hempty Hactive]. unfold handleSetThemes.
  destruct (JS.truthy (activeCodebook app)) eqn:Htruthy; cbn [negb]; [|done].
  apply truthy_ne in Htruthy. split; cbn.
  - by rewrite lookup_insert_ne.
  - right. rewrite lookup_insert_eq. by eexists.
Qed.

Lemma storeInv_step app e : storeInv app -> storeInv (storeStep app e).
Proof.
  intros Hinv. destruct e as [n| |n d|i|text|ts]; cbn [storeStep].
  - unfold handleCreateCodebook.
    destruct (JS.truthy (JS.trim n)) eqn:Hn; cbn [andb]; [|done].
    destruct (negb _); [|done]. apply truthy_ne in Hn.
    destruct Hinv as [Hempty _]. split; cbn.
    + by rewrite lookup_insert_ne.
    + right. rewrite lookup_insert_eq. by eexists.
  - unfold handleConfirmDelete. destruct (JS.truthy (activeCodebook app)) eqn:Ha; [|done].
    apply truthy_ne in Ha. destruct Hinv as [Hempty _].
    unfold handleDeleteCodebook. rewrite bool_decide_eq_true_2 by done. split; cbn.
    + by rewrite lookup_delete_ne.
    + destruct (sortedNames _) as [|first rest] eqn:Hsorted; [by left|].
      right. apply sortedNames_elem. rewrite Hsorted. apply elem_of_cons. by left.
  - unfold handleAddTheme. destruct (_ && _); [|done].
    destruct (someNamed _ _); [done|]. by apply storeInv_handleSetThemes.
  - by apply storeInv_handleSetThemes.
  - by apply storeInv_handleSetThemes.
  - unfold handleAddNewThemes. destruct (negb _); [done|].
    destruct (0 <? _)%nat; [|done]. by apply storeInv_handleSetThemes.
Qed.

Lemma storeInv_initial savedActive savedCodebooks :
  savedCodebooks !! "" = None ->
  (forall a, savedActive = Some a -> JS.inherited a = true ->
             is_Some (savedCodebooks !! a)) ->
  storeInv (initialApp savedActive savedCodebooks).
Proof.
  intros Hempty Hsaved. split; [done|]. cbn [activeCodebook initialApp codebooks].
  unfold initialActiveCodebook.
  assert (Hfallback :
            match sortedNames savedCodebooks with
            | first :: _ => if JS.truthy first then first else ""
            | [] => ""
            end = ""
            \/ is_Some (savedCodebooks !!
                 match sortedNames savedCodebooks with
                 | first :: _ => if JS.truthy first then first else ""
                 | [] => ""
                 end)).
  { destruct (sortedNames savedCodebooks) as [|first rest] eqn:Hsorted; [by left|].
    destruct (JS.truthy first); [|by left]. right.
    apply sortedNames_elem. rewrite Hsorted. apply elem_of_cons. by left. }
  destruct savedActive as [a|]; [|done]. unfold hasMember.
  destruct (JS.truthy a); cbn [andb]; [|done].
  case_bool_decide; cbn [orb]; [by right|].
  destruct (JS.inherited a) eqn:Ha; [|done]. right. by apply Hsaved.
Qed.

(** X19: starting from stored codebooks none of which has the empty
    name, and from a saved active name that is not the name of a
    member every object inherits (unless a stored codebook has that
    name), after any sequence of creations, deletions, single adds,
    removals, imports and foldings in of approved suggestions, the
    empty name is still no codebook and the active name is empty or
    the name of a stored codebook. *)
Theorem store_invariant savedActive savedCodebooks events :
  savedCodebooks !! "" = None ->
  (forall a, savedActive = Some a -> JS.inherited a = true ->
             is_Some (savedCodebooks !! a)) ->
  storeInv (fold_left storeStep events (initialApp savedActive savedCodebooks)).
Proof.
  intros Hempty Hsaved. generalize (storeInv_initial savedActive _ Hempty Hsaved).
  generalize (initialApp savedActive savedCodebooks).
  induction events as [|e events IH]; intros app Hinv; [done|].
  cbn [fold_left]. by apply IH, storeInv_step.
Qed.

Lemma store_invariant_witness :
  storeInv (fold_left storeStep
              [CreateCodebook "pilot"; AddTheme "Price" "Cost"; ConfirmDelete; RemoveTheme 3]
              (initialApp (Some "gone") {[ "survey" := [mkTheme "Support" "Help desk"] ]})).
Proof.
  apply store_invariant; [done|].
  intros a [= <-] Ha. discriminate Ha.
Defined.

(** A saved active name that every object inherits is taken as it is,
    although no stored codebook has it. *)
Example inherited_saved_name_is_kept :
  initialActiveCodebook (Some "constructor") {[ "survey" := [] ]} = "constructor"
  /\ ~ storeInv (initialApp (Some "constructor") {[ "survey" := [] ]}).
Proof.
  split; [reflexivity|]. intros [_ [Hactive|[themes Hsome]]]; [done|].
  cbn in Hsome. by rewrite lookup_singleton_ne in Hsome.
Qed.

Example store_run :
  let app := fold_left storeStep
               [CreateCodebook "pilot"; AddTheme "Price" "Cost"; ConfirmDelete; RemoveTheme 3]
               (initialApp (Some "gone") {[ "survey" := [mkTheme "Support" "Help desk"] ]}) in
  activeCodebook app = "survey" /\ activeThemes app = [mkTheme "Support" "Help desk"].
Proof. by split. Qed.

(** *** Export and import of a codebook *)

Lemma includesChar_app c s t :
  JS.includesChar c (s +:+ t) = JS.includesChar c s || JS.includesChar c t.
Proof.
  induction s as [|d s IH]; [done|]. rewrite append_cons. cbn [JS.includesChar].
  by rewrite IH, orb_assoc.
Qed.

Lemma splitChar_app c l rest :
  JS.includesChar c l = false ->
  JS.splitChar c (l +:+ String c rest) = l :: JS.splitChar c rest.
Proof.
  induction l as [|d l IH]; intros Hfree.
  - rewrite append_nil_l. cbn [JS.splitChar]. by rewrite Ascii.eqb_refl.
  - cbn [JS.includesChar] in Hfree. apply orb_false_iff in Hfree as [Hd Hfree].
    rewrite append_cons. cbn [JS.splitChar]. by rewrite Hd, IH.
Qed.

Lemma splitChar_free c l : JS.includesChar c l = false -> JS.splitChar c l = [l].
Proof.
  induction l as [|d l IH]; intros Hfree; [done|].
  cbn [JS.includesChar] in Hfree. apply orb_false_iff in Hfree as [Hd Hfree].
  cbn [JS.splitChar]. by rewrite Hd, IH.
Qed.

Lemma splitChar_join c ls :
  ls <> [] -> Forall (fun l => JS.includesChar c l = false) ls ->
  JS.splitChar c (JS.join (String c "") ls) = ls.
Proof.
  induction ls as [|l ls IH]; [done|]. intros _ [Hl Hls]%Forall_cons.
  destruct ls as [|l' ls]; [by apply splitChar_free|].
  change (JS.join (String c "") (l :: l' :: ls))
    with (l +:+ String c (JS.join (String c "") (l' :: ls))).
  rewrite splitChar_app by done. by rewrite IH.
Qed.

Lemma needsQuoting_chars s :
  JS.needsQuoting s = false ->
  JS.includesChar JS.COMMA s = false /\ JS.includesChar JS.LF s = false.
Proof.
  induction s as [|c s IH]; [done|]. cbn [JS.needsQuoting JS.includesChar].
  intros [[[_ Hc]%orb_false_iff Hlf]%orb_false_iff [Hs1 Hs2]%IH]%orb_false_iff.
  by rewrite Hc, Hlf, Hs1, Hs2.
Qed.

Lemma plainText_inv s :
  plainText s = true -> JS.needsQuoting s = false /\ s <> "" /\ JS.trim s = s.
Proof.
  unfold plainText.
  intros [[Hq%negb_true_iff Hne%truthy_ne]%andb_true_iff Htrim%String.eqb_eq]%andb_true_iff.
  done.
Qed.

(** The line the export writes for a theme of plain texts, and what the
    import makes of it. *)
Lemma plain_theme_line t :
  plainText (name t) = true -> plainText (description t) = true ->
  let line := escapeCsvField (name t) +:+ "," +:+ escapeCsvField (description t) in
  JS.includesChar JS.LF line = false
  /\ JS.trim line = line
  /\ JS.includesChar JS.COMMA line = true
  /\ parseThemeLine line = t.
Proof.
  intros (Hnq & Hnn & Hnt)%plainText_inv (Hdq & Hdn & Hdt)%plainText_inv. cbv zeta.
  unfold escapeCsvField. rewrite Hnq, Hdq.
  change (name t +:+ "," +:+ description t) with (name t +:+ String JS.COMMA (description t)).
  destruct (needsQuoting_chars _ Hnq) as [Hnc Hnl].
  destruct (needsQuoting_chars _ Hdq) as [Hdc Hdl].
  destruct (trim_fixed_ink _ Hnt Hnn) as [Hns _].
  destruct (trim_fixed_ink _ Hdt Hdn) as [_ Hde].
  split; [|split; [|split]].
  - rewrite includesChar_app, Hnl. cbn [JS.includesChar orb]. by rewrite Hdl.
  - apply trim_stable; [by apply startsInk_app|].
    by apply (endsInk_app (name t) (String JS.COMMA (description t))),
             (endsInk_app (String JS.COMMA "") (description t)).
  - rewrite includesChar_app. cbn [JS.includesChar]. rewrite Ascii.eqb_refl.
    by rewrite orb_true_r.
  - unfold parseThemeLine. rewrite splitChar_app, splitChar_free by done.
    cbn [JS.join]. rewrite Hnt, Hdt. by destruct t.
Qed.

(** X20: a codebook whose names and descriptions are plain texts
    (not empty, without comma, double quote or line feed, without white
    space at either end) is read back from its own export theme by
    theme; importing the export into the codebook it came from changes
    nothing. *)
Theorem export_import_roundtrip app text :
  handleExportCSV app = Some text ->
  Forall (fun t => plainText (name t) = true /\ plainText (description t) = true)
         (activeThemes app) ->
  importedThemes text = activeThemes app
  /\ handleFileUpload text app = app.
Proof.
  unfold handleExportCSV.
  destruct (JS.truthy (activeCodebook app)) eqn:Hactive; cbn [negb orb]; [|done].
  destruct (length (activeThemes app) =? 0)%nat eqn:Hlen; [done|].
  intros [= <-] Hplain.
  assert (Hne : activeThemes app <> []).
  { intros Hnil. by rewrite Hnil in Hlen. }
  set (lineOf := fun theme : Theme =>
                   escapeCsvField (name theme) +:+ "," +:+ escapeCsvField (description theme)).
  assert (Hline : forall t, t ∈ activeThemes app ->
                    JS.includesChar JS.LF (lineOf t) = false
                    /\ JS.trim (lineOf t) = lineOf t
                    /\ JS.includesChar JS.COMMA (lineOf t) = true
                    /\ parseThemeLine (lineOf t) = t).
  { intros t Ht. eapply Forall_forall in Hplain as [Hn Hd]; [|exact Ht].
    by apply plain_theme_line. }
  assert (Himport : importedThemes
                      (JS.join (String JS.LF "") (map lineOf (activeThemes app)))
                    = activeThemes app).
  { assert (H1 : map JS.trim (map lineOf (activeThemes app))
                 = map lineOf (activeThemes app)).
    { rewrite map_map. apply map_ext_in. intros t Ht%list_elem_of_In.
      by apply Hline in Ht as (_ & ? & _). }
    assert (H2 : filter (fun line => JS.includesChar JS.COMMA line)
                        (map lineOf (activeThemes app))
                 = map lineOf (activeThemes app)).
    { apply filter_all. intros l (t & -> & Ht)%list_elem_of_fmap.
      apply Hline in Ht as (_ & _ & Hc & _). by rewrite Hc. }
    assert (H3 : map parseThemeLine (map lineOf (activeThemes app)) = activeThemes app).
    { rewrite map_map. rewrite <- (map_id (activeThemes app)) at 2.
      apply map_ext_in. intros t Ht%list_elem_of_In.
      by apply Hline in Ht as (_ & _ & _ & ?). }
    assert (H4 : filter (fun theme => JS.truthy (name theme) && JS.truthy (description theme))
                        (activeThemes app)
                 = activeThemes app).
    { apply filter_all. intros t Ht.
      eapply Forall_forall in Hplain as [(_ & Hn%truthy_ne & _)%plainText_inv
                                           (_ & Hd%truthy_ne & _)%plainText_inv]; [|exact Ht].
      by rewrite Hn, Hd. }
    unfold importedThemes. rewrite splitChar_join; [by rewrite H1, H2, H3, H4| |].
    - by destruct (activeThemes app).
    - apply Forall_forall. intros l (t & -> & Ht)%list_elem_of_fmap.
      by apply Hline in Ht as (? & _). }
  split; [done|]. unfold handleFileUpload. rewrite Himport.
  unfold handleSetThemes. rewrite Hactive. cbn [negb].
  fold (activeThemes app). unfold mergeImported.
  rewrite filter_none, app_nil_r.
  - assert (Hlook : codebooks app !! activeCodebook app = Some (activeThemes app)).
    { unfold activeThemes in *. by destruct (codebooks app !! activeCodebook app). }
    rewrite insert_id by done. by destruct app.
  - intros t Ht Hfresh. apply negb_prop_elim in Hfresh. apply Hfresh, Is_true_true.
    by apply someNamed_self.
Qed.

Lemma export_import_roundtrip_witness :
  handleExportCSV Sample.app0 = Some "Support,Help desk"
  /\ importedThemes "Support,Help desk" = activeThemes Sample.app0.
Proof.
  split; [reflexivity|].
  apply (export_import_roundtrip Sample.app0 "Support,Help desk" eq_refl).
  apply Forall_singleton. by split.
Defined.

(** A description with a comma is exported between quotes and comes
    back with them. *)
Example export_import_quoted :
  let app := mkApp {[ "survey" := [mkTheme "Price" "cost, fees"] ]} "survey" [] "" [] in
  handleExportCSV app
  = Some ("Price," +:+ String JS.QUOTE ("cost, fees" +:+ String JS.QUOTE ""))
  /\ importedThemes ("Price," +:+ String JS.QUOTE ("cost, fees" +:+ String JS.QUOTE ""))
     = [mkTheme "Price" (String JS.QUOTE ("cost, fees" +:+ String JS.QUOTE ""))].
Proof. by split. Qed.

(** * The report page *)

Lemma getCount_bump m theme theme' :
  getCount (bump m theme) theme'
  = if decide (theme = theme') then S (getCount m theme') else getCount m theme'.
Proof.
  induction m as [|[k n] m IH]; cbn.
  - destruct (String.eqb_spec theme theme'); by case_decide.
  - destruct (String.eqb_spec k theme) as [->|Hne]; cbn.
    + destruct (String.eqb_spec theme theme'); case_decide; try done. lia.
    + destruct (String.eqb_spec k theme') as [->|Hne']; [by rewrite decide_False|done].
Qed.

Lemma bump_keys m theme k : k ∈ (bump m theme).*1 <-> k ∈ m.*1 \/ k = theme.
Proof.
  induction m as [|[k' n] m IH]; cbn.
  - rewrite list_elem_of_singleton, elem_of_nil. naive_solver.
  - destruct (String.eqb_spec k' theme) as [->|Hne]; cbn;
      rewrite !elem_of_cons; [|rewrite IH]; naive_solver.
Qed.

Lemma goodChart_bump m theme : goodChart m -> goodChart (bump m theme).
Proof.
  unfold goodChart. induction m as [|[k n] m IH]; cbn.
  - intros _. split; [apply NoDup_singleton|by apply Forall_singleton].
  - rewrite NoDup_cons, Forall_cons. intros [[Hnot Hnodup] [Hn Hall]].
    destruct (String.eqb_spec k theme) as [->|Hne]; cbn; rewrite NoDup_cons, Forall_cons.
    + repeat split; try done. cbn in *. lia.
    + destruct (IH (conj Hnodup Hall)) as [Hnodup' Hall'].
      repeat split; try done. intros [Hin| ->]%bump_keys; done.
Qed.

Lemma countStep_positive acc r :
  Chart.positive (countStep acc r)
  = if decide (sentiment r = "Positive")
    then bump (Chart.positive acc) (themeName r) else Chart.positive acc.
Proof.
  unfold countStep. destruct (String.eqb_spec (sentiment r) "Positive") as [->|Hne].
  - by rewrite decide_True.
  - rewrite decide_False by done.
    by destruct (String.eqb (sentiment r) "Negative"), (String.eqb (sentiment r) "Neutral").
Qed.

Lemma countStep_negative acc r :
  Chart.negative (countStep acc r)
  = if decide (sentiment r = "Negative")
    then bump (Chart.negative acc) (themeName r) else Chart.negative acc.
Proof.
  unfold countStep. destruct (String.eqb_spec (sentiment r) "Positive") as [Heq|_].
  - rewrite decide_False; [done|]. by rewrite Heq.
  - destruct (String.eqb_spec (sentiment r) "Negative") as [->|Hne].
    + by rewrite decide_True.
    + rewrite decide_False by done. by destruct (String.eqb (sentiment r) "Neutral").
Qed.

Lemma countStep_neutral acc r :
  Chart.neutral (countStep acc r)
  = if decide (sentiment r = "Neutral")
    then bump (Chart.neutral acc) (themeName r) else Chart.neutral acc.
Proof.
  unfold countStep. destruct (String.eqb_spec (sentiment r) "Positive") as [Heq|_].
  - rewrite decide_False; [done|]. by rewrite Heq.
  - destruct (String.eqb_spec (sentiment r) "Negative") as [Heq|_].
    + rewrite decide_False; [done|]. by rewrite Heq.
    + destruct (String.eqb_spec (sentiment r) "Neutral") as [->|Hne].
      * by rewrite decide_True.
      * by rewrite decide_False.
Qed.

Section OneChart.
Variable proj : Chart.Counts -> list (string * nat).
Variable tag : string.
Hypothesis proj_step : forall acc r,
  proj (countStep acc r)
  = if decide (sentiment r = tag) then bump (proj acc) (themeName r) else proj acc.

Lemma chart_counts results acc theme :
  getCount (proj (fold_left countStep results acc)) theme
  = getCount (proj acc) theme + countOf tag theme results.
Proof using proj_step.
  revert acc. induction results as [|r rs IH]; intros acc; [cbn; lia|].
  cbn [fold_left]. rewrite IH, proj_step. unfold countOf. rewrite filter_cons.
  destruct (decide (sentiment r = tag)) as [Htag|Htag].
  - rewrite getCount_bump. destruct (decide (themeName r = theme)) as [Hth|Hth].
    + rewrite decide_True by done. cbn [length]. lia.
    + rewrite decide_False by tauto. lia.
  - rewrite decide_False by tauto. lia.
Qed.

Lemma chart_good results acc :
  goodChart (proj acc) -> goodChart (proj (fold_left countStep results acc)).
Proof using proj_step.
  revert acc. induction results as [|r rs IH]; intros acc Hgood; [done|].
  cbn [fold_left]. apply IH. rewrite proj_step.
  destruct (decide _); [by apply goodChart_bump|done].
Qed.
End OneChart.

Lemma fold_max_ge (values : list nat) start :
  start <= fold_left Nat.max values start
  /\ Forall (fun n => n <= fold_left Nat.max values start) values.
Proof.
  revert start. induction values as [|n values IH]; intros start; [by split|].
  cbn [fold_left]. destruct (IH (Nat.max start n)) as [Hstart Hall].
  split; [lia|]. apply Forall_cons. split; [lia|done].
Qed.

(** X21: in each of the three charts the count shown for a theme is the
    number of results with that theme and the sentiment of the chart,
    so a result with any other sentiment is counted nowhere; every
    chart lists a theme once, never with a count of zero, and no count
    exceeds the maximum the bar heights are divided by, which is at
    least one. *)
Theorem theme_counts results :
  let c := themeCounts results in
  (forall theme,
      getCount (Chart.positive c) theme = countOf "Positive" theme results
      /\ getCount (Chart.negative c) theme = countOf "Negative" theme results
      /\ getCount (Chart.neutral c) theme = countOf "Neutral" theme results)
  /\ forall chart, chart ∈ [Chart.positive c; Chart.negative c; Chart.neutral c] ->
       goodChart chart
       /\ 1 <= maxCount chart
       /\ forall k n, (k, n) ∈ chart -> n <= maxCount chart.
Proof.
  cbv zeta. unfold themeCounts. split.
  - intros theme.
    rewrite (chart_counts _ _ countStep_positive), (chart_counts _ _ countStep_negative),
      (chart_counts _ _ countStep_neutral). done.
  - assert (Hempty : goodChart []) by (split; [apply NoDup_nil_2|done]).
    assert (Hbars : forall chart : list (string * nat),
               1 <= maxCount chart /\ forall k n, (k, n) ∈ chart -> n <= maxCount chart).
    { intros chart. unfold maxCount. destruct (fold_max_ge chart.*2 1) as [Hone Hall].
      split; [done|]. intros k n Hin. eapply Forall_forall in Hall; [exact Hall|].
      apply list_elem_of_fmap. by exists (k, n). }
    intros chart Hchart. split; [|apply Hbars].
    apply elem_of_cons in Hchart as [->|Hchart];
      [by apply (chart_good _ _ countStep_positive)|].
    apply elem_of_cons in Hchart as [->|Hchart];
      [by apply (chart_good _ _ countStep_negative)|].
    apply list_elem_of_singleton in Hchart as ->.
    by apply (chart_good _ _ countStep_neutral).
Qed.

Example theme_counts_sample :
  let rs := [mkCoding "Price" "Negative" 1%Qc "" "text" None None;
             mkCoding "Support" "Positive" 1%Qc "" "text" None None;
             mkCoding "Price" "Negative" 1%Qc "" "text" None None;
             mkCoding "Price" "negative" 1%Qc "" "text" None None] in
  themeCounts rs = Chart.mk [("Support", 1)] [("Price", 2)] [].
Proof. reflexivity. Qed.

(** *** Chat *)

Lemma handleSendChat_adds ai reply app rp :
  let st := handleSendChat ai reply (app, rp) in
  (st = (app, rp)
   \/ exists answer,
        JS.trim (Report.chatInput rp) <> ""
        /\ chatHistory st.1 = chatHistory app ++ exchange (Report.chatInput rp, answer)
        /\ Report.isChatLoading st.2 = false)
  /\ codebooks st.1 = codebooks app /\ activeCodebook st.1 = activeCodebook app
  /\ results st.1 = results app /\ reportContent st.1 = reportContent app.
Proof.
  cbv zeta. unfold handleSendChat.
  destruct (JS.truthy (JS.trim (Report.chatInput rp))) eqn:Hinput; cbn [negb orb];
    [|split; [by left|done]].
  destruct (Report.isChatLoading rp); cbn [orb]; [split; [by left|done]|].
  destruct ai; cbn [negb]; [|split; [by left|done]].
  apply truthy_ne in Hinput. split; [|done]. right.
  destruct reply as [responseText|e]; eexists; (split; [done|]);
    cbn [fst snd chatHistory Report.isChatLoading exchange]; by rewrite <- app_assoc.
Qed.

(** X22: whatever is typed and sent in the chat, and whatever the
    service answers or fails with, the chat history only grows at its
    end, by pairs of a question that is not blank, kept as typed, and
    one answer; the codebooks, the result set and the report are not
    touched. *)
Theorem chat_only_appends ai turns st :
  let st' := fold_left (chatTurn ai) turns st in
  (exists exchanges,
      chatHistory st'.1 = chatHistory st.1 ++ concat (map exchange exchanges)
      /\ Forall (fun q : string * string => JS.trim q.1 <> "" /\ q.1 ∈ map fst turns)
                exchanges)
  /\ codebooks st'.1 = codebooks st.1 /\ activeCodebook st'.1 = activeCodebook st.1
  /\ results st'.1 = results st.1 /\ reportContent st'.1 = reportContent st.1.
Proof.
  cbv zeta. revert st. induction turns as [|[input reply] turns IH]; intros [app rp].
  - split; [|done]. exists []. cbn. by rewrite app_nil_r.
  - cbn [fold_left]. unfold chatTurn at 2 4 6 8 10. cbn [fst snd].
    set (rp1 := Report.mk _ _ input _).
    destruct (handleSendChat_adds ai reply app rp1) as (Hadd & Hcb & Hact & Hres & Hrep).
    destruct (IH (handleSendChat ai reply (app, rp1)))
      as ((exchanges & Hhist & Hall) & Hcb' & Hact' & Hres' & Hrep').
    split; [|by rewrite Hcb', Hact', Hres', Hrep'].
    assert (Hlater : Forall (fun q : string * string =>
                               JS.trim q.1 <> "" /\ q.1 ∈ map fst ((input, reply) :: turns))
                            exchanges).
    { eapply Forall_impl; [exact Hall|]. intros q [? ?]. split; [done|]. cbn. by right. }
    destruct Hadd as [Hsame|(answer & Hinput & Hone & _)].
    + exists exchanges. rewrite Hhist, Hsame. by split.
    + exists ((input, answer) :: exchanges). rewrite Hhist, Hone. cbn [map concat].
      split; [by rewrite <- app_assoc|]. apply Forall_cons. split; [|done].
      split; [done|]. cbn. by left.
Qed.

(** * Export of the results *)


Section Download.
Variable showNumber : number -> string.



End Download.


(** A result without its uploaded row makes the download throw. *)
Example download_without_row :
  handleDownloadCSV (fun _ => "1")
    [Sample.coded "Praise"; mkCoding "Mixed" "Neutral" 1%Qc "" "text" None None]
  = Some (Throw "TypeError").
Proof. reflexivity. Qed.
